(** * Stag: spatial repository, query planner and session hub

    A shallow embedding of the session-data pipeline of the Stag service
    (Go): the mesh hasher and processor and the query planner of
    [internal/spatial/repository.go], the single-anchor handler of
    [internal/server/handlers], the error constructors of [pkg/errors] and
    the WebSocket hub of [internal/server/websocket]. *)

From Stdlib Require Import ZArith List Ascii String Strings.Byte DecimalString Floats Lia.
From stdpp Require Import base option list strings gmap sets.

Open Scope Z_scope.

(** ** crypto/sha256 and encoding/hex

    The Go standard library pieces [computeMeshHash] relies on: FIPS 180-4
    SHA-256 over a byte string, with 32-bit words as [Z] and the wrap-around
    written out, and the lowercase hexadecimal encoder. *)

Module sha256.

Definition w32 (x : Z) : Z := x mod 2 ^ 32.
Definition add32 (x y : Z) : Z := w32 (x + y).
Definition rotr (n x : Z) : Z :=
  Z.lor (Z.shiftr x n) (w32 (Z.shiftl x (32 - n))).
Definition not32 (x : Z) : Z := Z.lxor x (2 ^ 32 - 1).

Definition Ch (x y z : Z) : Z := Z.lxor (Z.land x y) (Z.land (not32 x) z).
Definition Maj (x y z : Z) : Z :=
  Z.lxor (Z.lxor (Z.land x y) (Z.land x z)) (Z.land y z).
Definition Sigma0 (x : Z) : Z := Z.lxor (Z.lxor (rotr 2 x) (rotr 13 x)) (rotr 22 x).
Definition Sigma1 (x : Z) : Z := Z.lxor (Z.lxor (rotr 6 x) (rotr 11 x)) (rotr 25 x).
Definition sigma0 (x : Z) : Z := Z.lxor (Z.lxor (rotr 7 x) (rotr 18 x)) (Z.shiftr x 3).
Definition sigma1 (x : Z) : Z := Z.lxor (Z.lxor (rotr 17 x) (rotr 19 x)) (Z.shiftr x 10).

(** The constants of the standard are roots of small primes: the round
    constants are the first 32 bits of the fractional parts of the cube
    roots of the first 64 primes, the initial hash value those of the square
    roots of the first 8. *)
Definition is_prime (n : nat) : bool :=
  forallb (λ d, negb (Nat.eqb (Nat.modulo n d) 0)) (seq 2 (n - 2)).

Definition primes : list Z := map Z.of_nat (filter (λ n, Is_true (is_prime n)) (seq 2 310)).

(** Integer cube root, one bit at a time from bit [k - 1] down. *)
Fixpoint cbrt_bits (k : nat) (n r : Z) : Z :=
  match k with
  | O => r
  | S k' =>
      let r' := r + 2 ^ Z.of_nat k' in
      cbrt_bits k' n (if r' * r' * r' <=? n then r' else r)
  end.

Definition frac_cbrt (p : Z) : Z := w32 (cbrt_bits 36 (p * 2 ^ 96) 0).
Definition frac_sqrt (p : Z) : Z := w32 (Z.sqrt (p * 2 ^ 64)).

Definition K : list Z := Eval vm_compute in map frac_cbrt primes.

Definition init : list Z := Eval vm_compute in map frac_sqrt (firstn 8 primes).

Definition byteZ (b : byte) : Z := Z.of_N (Byte.to_N b).
Definition Zbyte (z : Z) : byte :=
  match Byte.of_N (Z.to_N (z mod 256)) with Some b => b | None => x00 end.

(** Big-endian 32-bit words of a block. *)
Fixpoint words (bs : list Z) : list Z :=
  match bs with
  | a :: b :: c :: d :: rest =>
      (Z.shiftl a 24 + Z.shiftl b 16 + Z.shiftl c 8 + d) :: words rest
  | _ => []
  end.

Definition be_bytes (n : nat) (x : Z) : list Z :=
  map (fun i => Z.shiftr x (8 * Z.of_nat i) mod 256) (rev (seq 0 n)).

(** Message padding: 0x80, zeros up to 56 mod 64, then the bit length as a
    64-bit big-endian integer. *)
Definition pad (msg : list Z) : list Z :=
  let len := Z.of_nat (length msg) in
  let zeros := Z.to_nat ((55 - len) mod 64) in
  msg ++ 0x80 :: repeat 0 zeros ++ be_bytes 8 (8 * len).

Definition nthZ (l : list Z) (i : nat) : Z := nth i l 0.

(** Message schedule: [n] further words after the first sixteen. *)
Fixpoint schedule (n : nat) (w : list Z) : list Z :=
  match n with
  | O => w
  | S n' =>
      let t := length w in
      let x := add32 (add32 (sigma1 (nthZ w (t - 2))) (nthZ w (t - 7)))
                     (add32 (sigma0 (nthZ w (t - 15))) (nthZ w (t - 16))) in
      schedule n' (w ++ [x])
  end.

Definition round (st : list Z) (kw : Z * Z) : list Z :=
  match st with
  | [a; b; c; d; e; f; g; h] =>
      let t1 := add32 (add32 (add32 h (Sigma1 e)) (add32 (Ch e f g) (fst kw))) (snd kw) in
      let t2 := add32 (Sigma0 a) (Maj a b c) in
      [add32 t1 t2; a; b; c; add32 d t1; e; f; g]
  | _ => st
  end.

Fixpoint zip_add (xs ys : list Z) : list Z :=
  match xs, ys with
  | x :: xs', y :: ys' => add32 x y :: zip_add xs' ys'
  | _, _ => []
  end.

Definition compress (st : list Z) (block : list Z) : list Z :=
  let w := schedule 48 (words block) in
  zip_add st (fold_left round (combine K w) st).

Fixpoint blocks (n : nat) (bs : list Z) (st : list Z) : list Z :=
  match n with
  | O => st
  | S n' => blocks n' (skipn 64 bs) (compress st (firstn 64 bs))
  end.

(** [Sum256]: the 32-byte digest of a message. *)
Definition Sum256 (msg : list byte) : list byte :=
  let p := pad (map byteZ msg) in
  let st := blocks (Nat.div (length p) 64) p init in
  map Zbyte (flat_map (be_bytes 4) st).

(** The streaming interface [hash.Hash]: [Write] appends to the message,
    [Sum] digests what has been written so far. *)
Definition digest : Type := list byte.
Definition New : digest := [].
Definition Write (h : digest) (p : list byte) : digest := h ++ p.
Definition Sum (h : digest) : list byte := Sum256 h.

End sha256.

Module hex.

Definition hextable : string := "0123456789abcdef".

Definition digit (n : nat) : ascii :=
  match String.get n hextable with Some c => c | None => "0"%char end.

(** [hex.EncodeToString]: two lowercase digits per byte, high nibble first. *)
Fixpoint EncodeToString (src : list byte) : string :=
  match src with
  | [] => EmptyString
  | b :: rest =>
      let n := N.to_nat (Byte.to_N b) in
      String (digit (Nat.div n 16)) (String (digit (Nat.modulo n 16)) (EncodeToString rest))
  end.

End hex.

(** ** pkg/errors *)

Module errors.

Record APIError := {
  Message : string;
  StatusCode : Z;
  Code : string
}.

Definition StatusBadRequest : Z := 400.
Definition StatusNotFound : Z := 404.
Definition StatusInternalServerError : Z := 500.

(** [DatabaseError]: a 500 error with the database prefix. *)
Definition DatabaseError (message : string) : APIError :=
  {| Message := "database error: " +:+ message;
     StatusCode := StatusInternalServerError;
     Code := "DATABASE_ERROR" |}.

(** [ValidationError]: a 400 error with the validation prefix. *)
Definition ValidationError (message : string) : APIError :=
  {| Message := "validation error: " +:+ message;
     StatusCode := StatusBadRequest;
     Code := "VALIDATION_ERROR" |}.

(** A Go [error] value as the handlers see it: an [*APIError] itself, or an
    error made by [fmt.Errorf] with the verb [%w], which carries its own
    message and wraps its cause. *)
Inductive error :=
  | API (e : APIError)
  | Wrapped (message : string) (cause : APIError).

(** [Error()] *)
Definition Error (err : error) : string :=
  match err with
  | API e => Message e
  | Wrapped message _ => message
  end.

(** [IsAPIError]: a type assertion on the error itself; it does not look
    through a wrapper. *)
Definition IsAPIError (err : error) : option APIError :=
  match err with
  | API e => Some e
  | Wrapped _ _ => None
  end.

End errors.

(** ** pkg/api *)

Module Pose.
Record t := {
  X : float;
  Y : float;
  Z : float;
  Rotation : list float
}.
End Pose.

(** The free-form [Metadata] of an anchor plays no part in what follows and
    is left out. *)
Module Anchor.
Record t := {
  ID : string;
  SessionID : string;
  Pose : Pose.t;
  Timestamp : Z
}.
End Anchor.

Module Mesh.
Record t := {
  ID : string;
  AnchorID : string;
  Vertices : list byte;
  Faces : list byte;
  Normals : list byte;
  Hash : string;
  IsDelta : bool;
  BaseMeshID : string;
  DeltaData : list byte;
  CompressionLevel : Z;
  Timestamp : Z
}.

Definition with_ID (id : string) (m : t) : t :=
  {| ID := id; AnchorID := AnchorID m; Vertices := Vertices m; Faces := Faces m;
     Normals := Normals m; Hash := Hash m; IsDelta := IsDelta m;
     BaseMeshID := BaseMeshID m; DeltaData := DeltaData m;
     CompressionLevel := CompressionLevel m; Timestamp := Timestamp m |}.

Definition with_Hash (h : string) (m : t) : t :=
  {| ID := ID m; AnchorID := AnchorID m; Vertices := Vertices m; Faces := Faces m;
     Normals := Normals m; Hash := h; IsDelta := IsDelta m;
     BaseMeshID := BaseMeshID m; DeltaData := DeltaData m;
     CompressionLevel := CompressionLevel m; Timestamp := Timestamp m |}.

Definition with_geometry (v f n : list byte) (m : t) : t :=
  {| ID := ID m; AnchorID := AnchorID m; Vertices := v; Faces := f;
     Normals := n; Hash := Hash m; IsDelta := IsDelta m;
     BaseMeshID := BaseMeshID m; DeltaData := DeltaData m;
     CompressionLevel := CompressionLevel m; Timestamp := Timestamp m |}.
Definition with_Timestamp (ts : Z) (m : t) : t :=
  {| ID := ID m; AnchorID := AnchorID m; Vertices := Vertices m; Faces := Faces m;
     Normals := Normals m; Hash := Hash m; IsDelta := IsDelta m;
     BaseMeshID := BaseMeshID m; DeltaData := DeltaData m;
     CompressionLevel := CompressionLevel m; Timestamp := ts |}.
End Mesh.

Module SpatialEvent.
Record t := {
  SessionID : string;
  EventID : string;
  Timestamp : Z;
  Anchors : list Anchor.t;
  Meshes : list Mesh.t
}.
End SpatialEvent.

Module QueryParams.
Record t := {
  SessionID : string;
  AnchorID : string;
  Radius : float;
  Since : Z;
  Until : Z;
  Limit : Z;
  IncludeMeshes : bool;
  IncludeDeleted : bool
}.
Definition with_Limit (limit : Z) (p : t) : t :=
  {| SessionID := SessionID p; AnchorID := AnchorID p; Radius := Radius p;
     Since := Since p; Until := Until p; Limit := limit;
     IncludeMeshes := IncludeMeshes p; IncludeDeleted := IncludeDeleted p |}.
End QueryParams.

(** Outcome of a fallible repository call: a value or an [APIError]. *)
Inductive result (A : Type) : Type :=
  | Ok (a : A)
  | Err (e : errors.APIError).
Arguments Ok {A} a.
Arguments Err {A} e.

(** ** internal/spatial: the repository *)

Module spatial.

Record Repository := {
  meshHashCache : gmap string string
}.

Definition NewRepository : Repository := {| meshHashCache := ∅ |}.

Definition with_cache (c : gmap string string) (r : Repository) : Repository :=
  {| meshHashCache := c |}.

Definition len (b : list byte) : Z := Z.of_nat (length b).

(** [computeMeshHash]: SHA-256 over vertices, faces and, when non-empty,
    normals, hex-encoded. *)
Definition computeMeshHash (mesh : Mesh.t) : string :=
  let h := sha256.New in
  let h := sha256.Write h (Mesh.Vertices mesh) in
  let h := sha256.Write h (Mesh.Faces mesh) in
  let h := if 0 <? len (Mesh.Normals mesh) then sha256.Write h (Mesh.Normals mesh) else h in
  hex.EncodeToString (sha256.Sum h).

(** [processMeshForStorage]: the mesh to store, the bytes saved by
    deduplication, or an error; the repository's hash cache is threaded
    through. *)
Definition processMeshForStorage (r : Repository) (mesh : Mesh.t)
  : result (Mesh.t * Z) * Repository :=
  if Mesh.IsDelta mesh then
    if String.eqb (Mesh.BaseMeshID mesh) "" then
      (Err (errors.ValidationError "delta mesh missing base_mesh_id"), r)
    else
      let mesh :=
        if 0 <? len (Mesh.DeltaData mesh)
        then Mesh.with_geometry (Mesh.DeltaData mesh) [] [] mesh
        else mesh in
      (Ok (mesh, 0), r)
  else
    let hash := computeMeshHash mesh in
    let mesh := Mesh.with_Hash hash mesh in
    match meshHashCache r !! hash with
    | Some existingMeshID =>
        let savedBytes :=
          len (Mesh.Vertices mesh) + len (Mesh.Faces mesh) + len (Mesh.Normals mesh) in
        (Ok (Mesh.with_ID existingMeshID mesh, savedBytes), r)
    | None =>
        (Ok (mesh, 0), with_cache (<[hash := Mesh.ID mesh]> (meshHashCache r)) r)
    end.

(** *** The query planner *)

(** Values of a bindings map ([map[string]interface{}]). *)
Inductive value :=
  | VString (s : string)
  | VInt (n : Z)
  | VFloat (f : float).

Definition AnchorsCollection : string := "anchors".

Definition nl : string := String (ascii_of_nat 10) EmptyString.

(** [fmt.Sprintf] with the verb [%d]. *)
Definition Sprintf_d (n : Z) : string := NilZero.string_of_int (Z.to_int n).

(** The raw string literal of the spatial filter, line breaks and tabs
    included. *)
Definition spatialCondition : string := "
			LET refAnchor = FIRST(
				FOR a IN @@collection
				FILTER a.id == @anchor_id
				RETURN a
			)
			FILTER refAnchor != null
			FILTER GEO_DISTANCE([refAnchor.pose.x, refAnchor.pose.y], [doc.pose.x, doc.pose.y]) <= @radius
		".

(** [buildQuery]: the AQL text and its bind variables. *)
Definition buildQuery (params : QueryParams.t) : string * gmap string value :=
  let conditions : list string := [] in
  let bindVars : gmap string value := {[ "@collection" := VString AnchorsCollection ]} in
  (* Session filter *)
  let '(conditions, bindVars) :=
    if negb (String.eqb (QueryParams.SessionID params) "") then
      (conditions ++ ["doc.session_id == @session_id"],
       <["session_id" := VString (QueryParams.SessionID params)]> bindVars)
    else (conditions, bindVars) in
  (* Time range filter *)
  let '(conditions, bindVars) :=
    if 0 <? QueryParams.Since params then
      (conditions ++ ["doc.timestamp >= @since"],
       <["since" := VInt (QueryParams.Since params)]> bindVars)
    else (conditions, bindVars) in
  let '(conditions, bindVars) :=
    if 0 <? QueryParams.Until params then
      (conditions ++ ["doc.timestamp <= @until"],
       <["until" := VInt (QueryParams.Until params)]> bindVars)
    else (conditions, bindVars) in
  (* Spatial filter *)
  let '(conditions, bindVars) :=
    if negb (String.eqb (QueryParams.AnchorID params) "")
       && PrimFloat.ltb 0 (QueryParams.Radius params) then
      (conditions ++ [spatialCondition],
       <["radius" := VFloat (PrimFloat.mul (QueryParams.Radius params) 1000)]>
         (<["anchor_id" := VString (QueryParams.AnchorID params)]> bindVars))
    else (conditions, bindVars) in
  (* Build query *)
  let query := "FOR doc IN @@collection" in
  let query :=
    match conditions with
    | [] => query
    | first :: rest =>
        fold_left (fun q cond => q +:+ nl +:+ "AND " +:+ cond) rest
                  (query +:+ nl +:+ "FILTER " +:+ first)
    end in
  (* Sort and limit *)
  let query := query +:+ nl +:+ "SORT doc.timestamp DESC" in
  let '(query, bindVars) :=
    if 0 <? QueryParams.Limit params then
      (query +:+ nl +:+ "LIMIT " +:+ Sprintf_d (QueryParams.Limit params),
       <["limit" := VInt (QueryParams.Limit params)]> bindVars)
    else (query +:+ nl +:+ "LIMIT 100", bindVars) in
  (query +:+ nl +:+ "RETURN doc", bindVars).

(** What the store driver hands back for a query: a failure, or a cursor
    yielding documents until it is exhausted or a read fails. *)
Inductive cursor :=
  | QueryFailed (err : string)
  | Cursor (docs : list Anchor.t) (readErr : option string).

Record QueryResponse := {
  Anchors : list Anchor.t;
  Meshes : list Mesh.t;
  Count : Z;
  HasMore : bool
}.

Section Query.

(** The store behind the repository, as the driver presents it: the
    answer to a query text with its bind variables, and the mesh loader
    run on the anchors found. *)
Variable db_Query : string → gmap string value → cursor.
Variable loadMeshesForAnchors : list Anchor.t → result (list Mesh.t).

Definition Query (params : QueryParams.t) : result QueryResponse :=
  let '(query, bindVars) := buildQuery params in
  match db_Query query bindVars with
  | QueryFailed err =>
      Err (errors.DatabaseError ("failed to execute query: " +:+ err))
  | Cursor _ (Some err) =>
      Err (errors.DatabaseError ("failed to read anchor: " +:+ err))
  | Cursor anchors None =>
      let count := Z.of_nat (length anchors) in
      let response :=
        {| Anchors := anchors; Meshes := []; Count := count;
           HasMore := QueryParams.Limit params <=? count |} in
      if QueryParams.IncludeMeshes params && (0 <? count) then
        match loadMeshesForAnchors anchors with
        | Err e => Err e
        | Ok meshes =>
            Ok {| Anchors := anchors; Meshes := meshes; Count := count;
                  HasMore := QueryParams.Limit params <=? count |}
        end
      else Ok response
  end.

End Query.

(** *** Ingest and delta resolution over the store *)

Definition MeshesCollection : string := "meshes".

(** What reading a document by key gives: the document, a not-found error,
    or another driver error. *)
Inductive readResult :=
  | Found (m : Mesh.t)
  | NotFound (err : string)
  | ReadFailed (err : string).

(** What the repository reports to the metrics sink, in the order it does
    (the duration histogram, which reads the clock, is left out). *)
Inductive metric :=
  | DBOperationsTotal (operation collection status : string)
  | AnchorsTotal (session operation : string)
  | MeshesTotal (session meshType operation : string)
  | MeshDedupSavedBytes (session : string) (bytes : Z)
  | StorageSizeBytes (collection : string) (bytes : Z).

Section Store.

(** The document store behind the driver: its state and the four calls the
    repository makes on it.  A call that fails gives the driver's error
    text. *)
Variable DB : Type.
Variable Collection : DB → string → option string.
Variable UpsertAnchor : DB → Anchor.t → string + DB.
Variable ReadDocument : DB → string → readResult.
Variable CreateDocument : DB → Mesh.t → string + DB.

(** The repository with its store and the metrics emitted so far. *)
Record State := {
  repo : Repository;
  db : DB;
  metrics : list metric
}.

Definition emit (m : metric) (st : State) : State :=
  {| repo := repo st; db := db st; metrics := metrics st ++ [m] |}.

(** [ingestAnchor] stores an anchor in the database. *)
Definition ingestAnchor (st : State) (anchor : Anchor.t) : option errors.APIError * State :=
  match Collection (db st) AnchorsCollection with
  | Some err => (Some (errors.DatabaseError ("failed to get collection: " +:+ err)), st)
  | None =>
      match UpsertAnchor (db st) anchor with
      | inl err => (Some (errors.DatabaseError ("failed to upsert anchor: " +:+ err)), st)
      | inr db' => (None, {| repo := repo st; db := db'; metrics := metrics st |})
      end
  end.

(** [ingestMesh] stores a mesh in the database unless a document with its
    id is already there. *)
Definition ingestMesh (st : State) (mesh : Mesh.t) : option errors.APIError * State :=
  match Collection (db st) MeshesCollection with
  | Some err => (Some (errors.DatabaseError ("failed to get collection: " +:+ err)), st)
  | None =>
      (* Check if mesh already exists (for deduplication) *)
      match ReadDocument (db st) (Mesh.ID mesh) with
      | Found _ => (None, st)
      | ReadFailed err =>
          (Some (errors.DatabaseError ("failed to check existing mesh: " +:+ err)), st)
      | NotFound _ =>
          (* Insert new mesh *)
          match CreateDocument (db st) mesh with
          | inl err => (Some (errors.DatabaseError ("failed to create mesh: " +:+ err)), st)
          | inr db' =>
              let meshSize :=
                len (Mesh.Vertices mesh) + len (Mesh.Faces mesh) + len (Mesh.Normals mesh) in
              (None,
               emit (StorageSizeBytes "meshes" meshSize)
                 {| repo := repo st; db := db'; metrics := metrics st |})
          end
      end
  end.

(** The anchor loop of [Ingest]. *)
Fixpoint ingestAnchors (sessionID : string) (anchors : list Anchor.t) (st : State)
  : option errors.error * State :=
  match anchors with
  | [] => (None, st)
  | anchor :: rest =>
      match ingestAnchor st anchor with
      | (Some err, st) =>
          (Some (errors.Wrapped
                   ("failed to ingest anchor " +:+ Anchor.ID anchor +:+ ": "
                    +:+ errors.Message err) err),
           emit (DBOperationsTotal "ingest" "anchors" "error") st)
      | (None, st) =>
          ingestAnchors sessionID rest (emit (AnchorsTotal sessionID "ingest") st)
      end
  end.

(** The mesh loop of [Ingest].  [processMeshForStorage] works on the loop's
    copy of the mesh, so what the loop reads afterwards is the processed
    mesh. *)
Fixpoint ingestMeshes (sessionID : string) (meshes : list Mesh.t) (st : State)
  : option errors.error * State :=
  match meshes with
  | [] => (None, st)
  | mesh :: rest =>
      match processMeshForStorage (repo st) mesh with
      | (Err err, _) =>
          (Some (errors.Wrapped
                   ("failed to process mesh " +:+ Mesh.ID mesh +:+ ": "
                    +:+ errors.Message err) err),
           emit (DBOperationsTotal "ingest" "meshes" "error") st)
      | (Ok (processedMesh, saved), repo') =>
          let st := {| repo := repo'; db := db st; metrics := metrics st |} in
          match ingestMesh st processedMesh with
          | (Some err, st) =>
              (Some (errors.Wrapped
                       ("failed to ingest mesh " +:+ Mesh.ID processedMesh +:+ ": "
                        +:+ errors.Message err) err),
               emit (DBOperationsTotal "ingest" "meshes" "error") st)
          | (None, st) =>
              (* Track deduplication savings *)
              let st := if 0 <? saved then emit (MeshDedupSavedBytes sessionID saved) st
                        else st in
              let meshType := if Mesh.IsDelta processedMesh then "delta" else "full" in
              ingestMeshes sessionID rest (emit (MeshesTotal sessionID meshType "ingest") st)
          end
      end
  end.

(** [Ingest] processes and stores spatial events. *)
Definition Ingest (st : State) (event : SpatialEvent.t) : option errors.error * State :=
  match ingestAnchors (SpatialEvent.SessionID event) (SpatialEvent.Anchors event) st with
  | (Some err, st) => (Some err, st)
  | (None, st) =>
      match ingestMeshes (SpatialEvent.SessionID event) (SpatialEvent.Meshes event) st with
      | (Some err, st) => (Some err, st)
      | (None, st) => (None, emit (DBOperationsTotal "ingest" "spatial_event" "success") st)
      end
  end.

(** [resolveDeltaMesh] reconstructs a full mesh from delta.  The recursion
    follows base ids through the store and need not end; [fuel] bounds its
    depth, and [None] means the bound was reached. *)
Fixpoint resolveDeltaMesh (fuel : nat) (d : DB) (deltaMesh : Mesh.t)
  : option (result Mesh.t) :=
  match fuel with
  | O => None
  | S fuel' =>
      if negb (Mesh.IsDelta deltaMesh) || String.eqb (Mesh.BaseMeshID deltaMesh) "" then
        Some (Ok deltaMesh)
      else
        (* Load base mesh *)
        match Collection d MeshesCollection with
        | Some err => Some (Err (errors.DatabaseError ("failed to get collection: " +:+ err)))
        | None =>
            match ReadDocument d (Mesh.BaseMeshID deltaMesh) with
            | NotFound err | ReadFailed err =>
                Some (Err (errors.DatabaseError ("failed to load base mesh: " +:+ err)))
            | Found baseMesh =>
                (* Apply delta to base mesh: the base mesh with updated ID *)
                let apply (baseMesh : Mesh.t) :=
                  Mesh.with_Timestamp (Mesh.Timestamp deltaMesh)
                    (Mesh.with_ID (Mesh.ID deltaMesh) baseMesh) in
                (* If base mesh is also a delta, resolve it first *)
                if Mesh.IsDelta baseMesh then
                  match resolveDeltaMesh fuel' d baseMesh with
                  | None => None
                  | Some (Err err) => Some (Err err)
                  | Some (Ok resolvedBase) => Some (Ok (apply resolvedBase))
                  end
                else Some (Ok (apply baseMesh))
            end
        end
  end.

(** The resolution loop of [loadMeshesForAnchors] over the meshes read from
    the cursor: a delta mesh that does not resolve is logged and skipped. *)
Fixpoint resolveAll (fuel : nat) (d : DB) (meshes : list Mesh.t)
  : option (list Mesh.t) :=
  match meshes with
  | [] => Some []
  | mesh :: rest =>
      if Mesh.IsDelta mesh then
        match resolveDeltaMesh fuel d mesh with
        | None => None
        | Some (Err _) => resolveAll fuel d rest
        | Some (Ok resolved) => option_map (cons resolved) (resolveAll fuel d rest)
        end
      else option_map (cons mesh) (resolveAll fuel d rest)
  end.

(** What the driver hands back for the mesh query. *)
Inductive meshCursor :=
  | MeshQueryFailed (err : string)
  | MeshCursor (docs : list Mesh.t) (readErr : option string).

Variable QueryMeshes : DB → list string → meshCursor.

(** [loadMeshesForAnchors] loads meshes associated with anchors. *)
Definition loadMeshesForAnchors (fuel : nat) (d : DB) (anchors : list Anchor.t)
  : option (result (list Mesh.t)) :=
  let anchorIDs := map Anchor.ID anchors in
  match QueryMeshes d anchorIDs with
  | MeshQueryFailed err =>
      Some (Err (errors.DatabaseError ("failed to query meshes: " +:+ err)))
  | MeshCursor _ (Some err) =>
      Some (Err (errors.DatabaseError ("failed to read mesh: " +:+ err)))
  | MeshCursor meshes None =>
      (* Resolve delta meshes *)
      option_map Ok (resolveAll fuel d meshes)
  end.

End Store.

Arguments repo {DB} _.
Arguments db {DB} _.
Arguments metrics {DB} _.

End spatial.

(** ** internal/server/handlers: the single-anchor endpoint *)

Module handlers.

Inductive body :=
  | JSONAnchor (a : Anchor.t)
  | JSONError (error : string) (code : option string).

(** The parameters [GetAnchor] queries with: [AnchorID] and [Limit] set,
    every other field at its zero value. *)
Definition anchorParams (anchorID : string) : QueryParams.t :=
  {| QueryParams.SessionID := ""; QueryParams.AnchorID := anchorID;
     QueryParams.Radius := 0; QueryParams.Since := 0; QueryParams.Until := 0;
     QueryParams.Limit := 1; QueryParams.IncludeMeshes := false;
     QueryParams.IncludeDeleted := false |}.

Section GetAnchor.

Variable db_Query : string → gmap string spatial.value → spatial.cursor.
Variable loadMeshesForAnchors : list Anchor.t → result (list Mesh.t).

(** [GetAnchor] handles GET /api/v1/anchors/:id; the result is the HTTP
    status and the JSON body.  Every error [Query] returns is an
    [APIError], so the handler's generic-error branch is never taken. *)
Definition GetAnchor (anchorID : string) : Z * body :=
  if String.eqb anchorID "" then
    (errors.StatusBadRequest, JSONError "anchor ID is required" None)
  else
    (* Query for specific anchor *)
    let params := anchorParams anchorID in
    match spatial.Query db_Query loadMeshesForAnchors params with
    | Err apiErr =>
        (errors.StatusCode apiErr,
         JSONError (errors.Message apiErr) (Some (errors.Code apiErr)))
    | Ok response =>
        match spatial.Anchors response with
        | [] => (errors.StatusNotFound, JSONError "Anchor not found" None)
        | a :: _ => (200, JSONAnchor a)
        end
    end.

End GetAnchor.

(** The JSON bodies of the query and ingest endpoints. *)
Inductive reply :=
  | ReplyError (error : string) (code : option string)
  | ReplyQuery (response : spatial.QueryResponse)
  | ReplyIngest (event_id : string) (anchors_count meshes_count : Z).

Section Query.

Variable db_Query : string → gmap string spatial.value → spatial.cursor.
Variable loadMeshesForAnchors : list Anchor.t → result (list Mesh.t).

(** [Query] handles GET /api/v1/query, from the bound query parameters on. *)
Definition Query (params : QueryParams.t) : Z * reply :=
  (* Validate parameters *)
  if String.eqb (QueryParams.SessionID params) ""
     && String.eqb (QueryParams.AnchorID params) "" then
    (errors.StatusBadRequest,
     ReplyError "Either session_id or anchor_id must be provided" None)
  else if negb (String.eqb (QueryParams.AnchorID params) "")
          && PrimFloat.leb (QueryParams.Radius params) 0 then
    (errors.StatusBadRequest,
     ReplyError "radius must be provided when using anchor_id" None)
  else
    (* Set default limit *)
    let params :=
      if QueryParams.Limit params <=? 0 then QueryParams.with_Limit 100 params
      else if 1000 <? QueryParams.Limit params then QueryParams.with_Limit 1000 params
      else params in
    (* Execute query *)
    match spatial.Query db_Query loadMeshesForAnchors params with
    | Err apiErr =>
        (errors.StatusCode apiErr,
         ReplyError (errors.Message apiErr) (Some (errors.Code apiErr)))
    | Ok response => (200, ReplyQuery response)
    end.

End Query.

Section Ingest.

Variable DB : Type.
Variable Collection : DB → string → option string.
Variable UpsertAnchor : DB → Anchor.t → string + DB.
Variable ReadDocument : DB → string → spatial.readResult.
Variable CreateDocument : DB → Mesh.t → string + DB.

(** [Ingest] handles POST /api/v1/ingest, from the bound event on. *)
Definition Ingest (st : spatial.State DB) (event : SpatialEvent.t)
  : (Z * reply) * spatial.State DB :=
  (* Additional validation *)
  if String.eqb (SpatialEvent.SessionID event) "" then
    ((errors.StatusBadRequest, ReplyError "session_id is required" None), st)
  else if String.eqb (SpatialEvent.EventID event) "" then
    ((errors.StatusBadRequest, ReplyError "event_id is required" None), st)
  else
    (* Process the event *)
    match spatial.Ingest DB Collection UpsertAnchor ReadDocument CreateDocument st event with
    | (Some err, st) =>
        (* Check if it's an API error *)
        match errors.IsAPIError err with
        | Some apiErr =>
            ((errors.StatusCode apiErr,
              ReplyError (errors.Message apiErr) (Some (errors.Code apiErr))), st)
        | None =>
            (* Generic error *)
            ((errors.StatusInternalServerError,
              ReplyError "Failed to ingest event" None), st)
        end
    | (None, st) =>
        ((200,
          ReplyIngest (SpatialEvent.EventID event)
            (Z.of_nat (length (SpatialEvent.Anchors event)))
            (Z.of_nat (length (SpatialEvent.Meshes event)))), st)
    end.

End Ingest.

End handlers.

(** ** An in-memory store

    A stand-in for the document store, used to run the handlers on concrete
    data.  It answers the clauses the planner emits: a filter is applied
    when its text occurs in the query, documents are sorted by descending
    timestamp, and the LIMIT clause is read back from the text.  Geodesic
    distance is not implemented; a query using it fails. *)

Module memstore.

Definition contains (pat s : string) : bool :=
  match String.index 0 pat s with Some _ => true | None => false end.

Definition parseLimit (query : string) : option nat :=
  match String.index 0 "LIMIT " query with
  | None => None
  | Some i =>
      let rest := String.substring (i + 6) (String.length query) query in
      let digits :=
        match String.index 0 spatial.nl rest with
        | Some j => String.substring 0 j rest
        | None => rest
        end in
      option_map Nat.of_uint (NilZero.uint_of_string digits)
  end.

Fixpoint insertDesc (a : Anchor.t) (l : list Anchor.t) : list Anchor.t :=
  match l with
  | [] => [a]
  | b :: l' =>
      if Anchor.Timestamp b <? Anchor.Timestamp a then a :: l
      else b :: insertDesc a l'
  end.

Definition sortDesc (l : list Anchor.t) : list Anchor.t :=
  fold_right insertDesc [] l.

Definition clause (text key : string) (keep : spatial.value → Anchor.t → bool)
    (query : string) (bindVars : gmap string spatial.value)
    (docs : option (list Anchor.t)) : option (list Anchor.t) :=
  if contains text query then
    match docs, bindVars !! key with
    | Some ds, Some v => Some (List.filter (keep v) ds)
    | _, _ => None
    end
  else docs.

Definition Query (store : list Anchor.t)
    (query : string) (bindVars : gmap string spatial.value) : spatial.cursor :=
  if contains "GEO_DISTANCE" query then
    spatial.QueryFailed "GEO_DISTANCE is not supported"
  else
    let docs := Some store in
    let docs :=
      clause "doc.session_id == @session_id" "session_id"
        (fun v doc => match v with
                      | spatial.VString s => String.eqb (Anchor.SessionID doc) s
                      | _ => false end) query bindVars docs in
    let docs :=
      clause "doc.timestamp >= @since" "since"
        (fun v doc => match v with
                      | spatial.VInt n => n <=? Anchor.Timestamp doc
                      | _ => false end) query bindVars docs in
    let docs :=
      clause "doc.timestamp <= @until" "until"
        (fun v doc => match v with
                      | spatial.VInt n => Anchor.Timestamp doc <=? n
                      | _ => false end) query bindVars docs in
    match docs, parseLimit query with
    | Some ds, Some n => spatial.Cursor (firstn n (sortDesc ds)) None
    | _, _ => spatial.QueryFailed "bad query"
    end.

Definition loadMeshesForAnchors (anchors : list Anchor.t) : result (list Mesh.t) :=
  Ok [].

End memstore.

(** ** internal/server/websocket: the session hub *)

Module websocket.

(** A client is known to the hub by its address; the session it is bound to
    is fixed when it is created. *)
Abbreviation Client := (nat * string)%type.

Definition sessionID (c : Client) : string := snd c.

(** A buffered channel of frames: its queue and whether it has been closed. *)
Record Chan := {
  buf : list (list byte);
  closed : bool
}.

(** Capacity of the send queue [NewClient] makes. *)
Definition sendCap : nat := 256.

Definition newChan : Chan := {| buf := []; closed := false |}.

(** [close(ch)]: closing a closed channel panics ([None]). *)
Definition close (ch : Chan) : option Chan :=
  if closed ch then None else Some {| buf := buf ch; closed := true |}.

(** A send inside [select] with a [default] branch. *)
Inductive trySendResult :=
  | Sent (ch : Chan)
  | Full
  | SendOnClosed.

Definition trySend (ch : Chan) (frame : list byte) : trySendResult :=
  if closed ch then SendOnClosed
  else if (length (buf ch) <? sendCap)%nat
       then Sent {| buf := buf ch ++ [frame]; closed := false |}
       else Full.

Record BroadcastMessage := {
  SessionID : string;
  Message : list byte;
  Exclude : option Client
}.

(** The hub with what its steps act on: the clients by session, the send
    channel of every client (a client not recorded has the channel
    [NewClient] gave it) and the [connections_active] gauge by session. *)
Record Hub := {
  clients : gmap string (gset Client);
  sends : gmap Client Chan;
  WSConnectionsActive : gmap string Z;
  maxClientsPerSession : Z
}.

Definition NewHub : Hub :=
  {| clients := ∅; sends := ∅; WSConnectionsActive := ∅; maxClientsPerSession := 10 |}.

Definition send (h : Hub) (c : Client) : Chan := default newChan (sends h !! c).

(** [h.clients[sid]], the empty set when the session has no entry. *)
Definition sessionClients (h : Hub) (sid : string) : gset Client :=
  default ∅ (clients h !! sid).

Definition gauge (h : Hub) (sid : string) : Z := default 0 (WSConnectionsActive h !! sid).

(** How a step of the loop ends: it returns, it panics, or it stays blocked
    on sending [c] to the hub's own unbuffered [unregister] channel, which
    only the loop itself receives from. *)
Inductive outcome :=
  | Done (h : Hub)
  | Blocked (h : Hub) (c : Client)
  | Panic (reason : string).

(** [registerClient] adds a new client to the hub. *)
Definition registerClient (h : Hub) (client : Client) : outcome :=
  let sid := sessionID client in
  (* Initialize session map if needed *)
  let clients0 :=
    match clients h !! sid with
    | None => <[sid := ∅]> (clients h)
    | Some _ => clients h
    end in
  let set := default ∅ (clients0 !! sid) in
  (* Check connection limit *)
  if maxClientsPerSession h <=? Z.of_nat (size set) then
    match close (send h client) with
    | None => Panic "close of closed channel"
    | Some ch =>
        Done {| clients := clients0; sends := <[client := ch]> (sends h);
                WSConnectionsActive := WSConnectionsActive h;
                maxClientsPerSession := maxClientsPerSession h |}
    end
  else
    (* Add client *)
    Done {| clients := <[sid := {[client]} ∪ set]> clients0; sends := sends h;
            WSConnectionsActive := <[sid := gauge h sid + 1]> (WSConnectionsActive h);
            maxClientsPerSession := maxClientsPerSession h |}.

(** [unregisterClient] removes a client from the hub. *)
Definition unregisterClient (h : Hub) (client : Client) : outcome :=
  let sid := sessionID client in
  match clients h !! sid with
  | Some set =>
      if decide (client ∈ set) then
        let set' := set ∖ {[client]} in
        match close (send h client) with
        | None => Panic "close of closed channel"
        | Some ch =>
            Done {| clients :=
                      (* Clean up empty session *)
                      if (size set' =? 0)%nat then delete sid (clients h)
                      else <[sid := set']> (clients h);
                    sends := <[client := ch]> (sends h);
                    WSConnectionsActive := <[sid := gauge h sid - 1]> (WSConnectionsActive h);
                    maxClientsPerSession := maxClientsPerSession h |}
        end
      else Done h
  | None => Done h
  end.

(** The loop of [broadcastMessage] over the session's clients, in the order
    the map iteration yields them. *)
Fixpoint deliver (order : list Client) (msg : BroadcastMessage) (h : Hub) : outcome :=
  match order with
  | [] => Done h
  | client :: rest =>
      (* Skip excluded client *)
      if decide (Some client = Exclude msg) then deliver rest msg h
      else
        match trySend (send h client) (Message msg) with
        | Sent ch =>
            deliver rest msg
              {| clients := clients h; sends := <[client := ch]> (sends h);
                 WSConnectionsActive := WSConnectionsActive h;
                 maxClientsPerSession := maxClientsPerSession h |}
        | Full => Blocked h client
        | SendOnClosed => Panic "send on closed channel"
        end
  end.

(** [broadcastMessage] sends a message to all clients in a session. *)
Definition broadcastMessage (h : Hub) (msg : BroadcastMessage) (order : list Client)
  : outcome :=
  match clients h !! SessionID msg with
  | None => Done h
  | Some _ => deliver order msg h
  end.

(** The hub's event loop, one received event at a time.  A broadcast may
    visit the session's clients in any order. *)
Inductive event :=
  | Register (c : Client)
  | Unregister (c : Client)
  | Broadcast (msg : BroadcastMessage).

Inductive Run : Hub → event → outcome → Prop :=
  | Run_register h c :
      Run h (Register c) (registerClient h c)
  | Run_unregister h c :
      Run h (Unregister c) (unregisterClient h c)
  | Run_broadcast h msg order :
      order ≡ₚ elements (sessionClients h (SessionID msg)) →
      Run h (Broadcast msg) (broadcastMessage h msg order).

(** The hub states the loop reaches from [NewHub], with the events it has
    handled, oldest first. *)
Inductive reaches : list event → Hub → Prop :=
  | reaches_new : reaches [] NewHub
  | reaches_step evs h ev h' :
      reaches evs h → Run h ev (Done h') → reaches (evs ++ [ev]) h'.

Definition reachable (h : Hub) : Prop := ∃ evs, reaches evs h.

(** The clients the events register, oldest first. *)
Definition registered (evs : list event) : list Client :=
  omap (λ ev, match ev with Register c => Some c | _ => None end) evs.

(** The state an outcome leaves behind, if the process is still alive. *)
Definition hub_of (o : outcome) : option Hub :=
  match o with
  | Done h => Some h
  | Blocked h _ => Some h
  | Panic _ => None
  end.

(** The inbound envelope and what the reader does with a data update. *)
Record WSMessage := {
  Type_ : string;
  WSSessionID : string;
  Data : list byte;
  Timestamp : Z;
  TraceID : string
}.

Inductive action :=
  | SendError (code message : string)
  | ToHub (msg : BroadcastMessage).

Section Client.

(** The repository call and the JSON encoder the reader relies on. *)
Variable ProcessWebSocketMessage : WSMessage → option errors.APIError.
Variable Marshal : WSMessage → list byte.

(** [handleDataUpdate] processes anchor and mesh updates: an error frame
    for the sender, or a broadcast to the other clients of the session. *)
Definition handleDataUpdate (c : Client) (msg : WSMessage) : action :=
  match ProcessWebSocketMessage msg with
  | Some err => SendError "PROCESSING_ERROR" (errors.Message err)
  | None =>
      ToHub {| SessionID := sessionID c; Message := Marshal msg; Exclude := Some c |}
  end.

End Client.

(** Running a list of events from a hub, with the canonical iteration order
    for broadcasts. *)
Fixpoint run (evs : list event) (h : Hub) : outcome :=
  match evs with
  | [] => Done h
  | ev :: rest =>
      let o :=
        match ev with
        | Register c => registerClient h c
        | Unregister c => unregisterClient h c
        | Broadcast msg =>
            broadcastMessage h msg (elements (sessionClients h (SessionID msg)))
        end in
      match o with
      | Done h' => run rest h'
      | _ => o
      end
  end.

(** What holds of the hub after the events [regs] registered: the cap is
    the one [NewHub] set, no session exceeds it, a session's set holds
    registered clients bound to that session, and the send channel of a
    client never registered is as [NewClient] made it. *)
Record hub_inv (regs : list Client) (h : Hub) : Prop := {
  inv_max : maxClientsPerSession h = 10;
  inv_size : ∀ sid set, clients h !! sid = Some set → (size set ≤ 10)%nat;
  inv_member : ∀ sid set c,
    clients h !! sid = Some set → c ∈ set → sessionID c = sid ∧ c ∈ regs;
  inv_fresh : ∀ c, c ∉ regs → sends h !! c = None
}.

(** The send queue of every client in a session's set is open. *)
Definition members_open (h : Hub) : Prop :=
  ∀ sid set c, clients h !! sid = Some set → c ∈ set → closed (send h c) = false.

(** What every step keeps: no session is kept with an empty set, and no
    send queue holds more than its capacity. *)
Record hub_counts (h : Hub) : Prop := {
  counts_nonempty : ∀ sid set, clients h !! sid = Some set → set ≠ ∅;
  counts_bounded : ∀ c, (length (buf (send h c)) ≤ sendCap)%nat
}.

(** The gauge of every session is the size of its set. *)
Definition gauge_counts (h : Hub) : Prop :=
  ∀ sid, gauge h sid = Z.of_nat (size (sessionClients h sid)).

(** [GetActiveConnections] returns the number of active connections. *)
Definition GetActiveConnections (h : Hub) : nat :=
  map_fold (λ _ (set : gset Client) count, (count + size set)%nat) 0%nat (clients h).

End websocket.

(** ** internal/spatial: live updates from the socket *)

Module live.

Record AnchorUpdate := {
  AnchorUpdateID : string;
  AnchorUpdatePose : Pose.t
}.

Record MeshUpdate := {
  ID : string;
  AnchorID : string;
  Vertices : string;
  Faces : string;
  Normals : string;
  CompressionLevel : Z;
  IsDelta : bool;
  BaseMeshID : string
}.

Definition WSTypeAnchorUpdate : string := "anchor_update".
Definition WSTypeMeshUpdate : string := "mesh_update".
Definition WSTypePing : string := "ping".
Definition WSTypePong : string := "pong".

Section Live.

Variable DB : Type.
Variable Collection : DB → string → option string.
Variable UpsertAnchor : DB → Anchor.t → string + DB.
Variable ReadDocument : DB → string → spatial.readResult.
Variable CreateDocument : DB → Mesh.t → string + DB.

(** The decoders the live path relies on: [json.Unmarshal] into the two
    update shapes and [base64.StdEncoding.DecodeString]; a failure gives the
    decoder's error text. *)
Variable UnmarshalAnchorUpdate : list byte → string + AnchorUpdate.
Variable UnmarshalMeshUpdate : list byte → string + MeshUpdate.
Variable DecodeString : string → string + list byte.

(** [processAnchorUpdate] handles anchor update messages. *)
Definition processAnchorUpdate (st : spatial.State DB) (msg : websocket.WSMessage)
  : option errors.APIError * spatial.State DB :=
  match UnmarshalAnchorUpdate (websocket.Data msg) with
  | inl err => (Some (errors.ValidationError ("invalid anchor update: " +:+ err)), st)
  | inr update =>
      let anchor :=
        {| Anchor.ID := AnchorUpdateID update;
           Anchor.SessionID := websocket.WSSessionID msg;
           Anchor.Pose :=
             {| Pose.X := Pose.X (AnchorUpdatePose update);
                Pose.Y := Pose.Y (AnchorUpdatePose update);
                Pose.Z := Pose.Z (AnchorUpdatePose update);
                Pose.Rotation := Pose.Rotation (AnchorUpdatePose update) |};
           Anchor.Timestamp := websocket.Timestamp msg |} in
      spatial.ingestAnchor DB Collection UpsertAnchor st anchor
  end.

(** [processMeshUpdate] handles mesh update messages. *)
Definition processMeshUpdate (st : spatial.State DB) (msg : websocket.WSMessage)
  : option errors.APIError * spatial.State DB :=
  match UnmarshalMeshUpdate (websocket.Data msg) with
  | inl err => (Some (errors.ValidationError ("invalid mesh update: " +:+ err)), st)
  | inr update =>
      (* Decode base64 data *)
      match DecodeString (Vertices update) with
      | inl err => (Some (errors.ValidationError ("invalid vertices encoding: " +:+ err)), st)
      | inr vertices =>
          match (if String.eqb (Faces update) "" then inr [] else DecodeString (Faces update)) with
          | inl err => (Some (errors.ValidationError ("invalid faces encoding: " +:+ err)), st)
          | inr faces =>
              match (if String.eqb (Normals update) "" then inr []
                     else DecodeString (Normals update)) with
              | inl err =>
                  (Some (errors.ValidationError ("invalid normals encoding: " +:+ err)), st)
              | inr normals =>
                  let mesh :=
                    {| Mesh.ID := ID update; Mesh.AnchorID := AnchorID update;
                       Mesh.Vertices := vertices; Mesh.Faces := faces;
                       Mesh.Normals := normals; Mesh.Hash := "";
                       Mesh.IsDelta := IsDelta update;
                       Mesh.BaseMeshID := BaseMeshID update;
                       (* If it's a delta mesh, vertices contain the delta data *)
                       Mesh.DeltaData := if IsDelta update then vertices else [];
                       Mesh.CompressionLevel := CompressionLevel update;
                       Mesh.Timestamp := websocket.Timestamp msg |} in
                  (* Process and ingest *)
                  match spatial.processMeshForStorage (spatial.repo st) mesh with
                  | (Err err, _) => (Some err, st)
                  | (Ok (processedMesh, saved), repo') =>
                      let st :=
                        {| spatial.repo := repo'; spatial.db := spatial.db st;
                           spatial.metrics := spatial.metrics st |} in
                      match spatial.ingestMesh DB Collection ReadDocument CreateDocument
                              st processedMesh with
                      | (Some err, st) => (Some err, st)
                      | (None, st) =>
                          (None,
                           if 0 <? saved then
                             spatial.emit DB
                               (spatial.MeshDedupSavedBytes (websocket.WSSessionID msg) saved) st
                           else st)
                      end
                  end
              end
          end
      end
  end.

(** [ProcessWebSocketMessage] handles incoming WebSocket messages. *)
Definition ProcessWebSocketMessage (st : spatial.State DB) (msg : websocket.WSMessage)
  : option errors.APIError * spatial.State DB :=
  if String.eqb (websocket.Type_ msg) WSTypeAnchorUpdate then processAnchorUpdate st msg
  else if String.eqb (websocket.Type_ msg) WSTypeMeshUpdate then processMeshUpdate st msg
  else (None, st).

End Live.

(** *** The reader of a client *)

(** What the reader does with one frame: a reply put on the client's own
    queue if there is room, or what [handleDataUpdate] decides. *)
Inductive step :=
  | Reply (frame : websocket.WSMessage)
  | ReplyError (code message : string)
  | Update (a : websocket.action).

Section Reader.

(** The repository call, the JSON encoder and decoder of envelopes, and the
    clock, in milliseconds. *)
Variable ProcessWebSocketMessage : websocket.WSMessage → option errors.APIError.
Variable Marshal : websocket.WSMessage → list byte.
Variable Unmarshal : list byte → option websocket.WSMessage.
Variable now : Z.

(** [handlePing] responds to ping messages. *)
Definition handlePing (msg : websocket.WSMessage) : websocket.WSMessage :=
  {| websocket.Type_ := WSTypePong;
     websocket.WSSessionID := websocket.WSSessionID msg;
     websocket.Data := [];
     websocket.Timestamp := now;
     websocket.TraceID := websocket.TraceID msg |}.

(** One turn of the loop of [ReadPump], for a frame that was read. *)
Definition ReadPump (c : websocket.Client) (message : list byte) : step :=
  (* Parse message *)
  match Unmarshal message with
  | None => ReplyError "INVALID_MESSAGE" "Failed to parse message"
  | Some wsMessage =>
      (* Set session ID if not provided *)
      let wsMessage :=
        if String.eqb (websocket.WSSessionID wsMessage) "" then
          {| websocket.Type_ := websocket.Type_ wsMessage;
             websocket.WSSessionID := websocket.sessionID c;
             websocket.Data := websocket.Data wsMessage;
             websocket.Timestamp := websocket.Timestamp wsMessage;
             websocket.TraceID := websocket.TraceID wsMessage |}
        else wsMessage in
      (* Handle different message types *)
      if String.eqb (websocket.Type_ wsMessage) WSTypePing then
        Reply (handlePing wsMessage)
      else if String.eqb (websocket.Type_ wsMessage) WSTypeAnchorUpdate
              || String.eqb (websocket.Type_ wsMessage) WSTypeMeshUpdate then
        Update (websocket.handleDataUpdate ProcessWebSocketMessage Marshal c wsMessage)
      else ReplyError "UNKNOWN_TYPE" "Unknown message type"
  end.

End Reader.

End live.

(** ** Auxiliary notions *)

(** [r'] is the repository some calls of [processMeshForStorage] later. *)
Definition laterRepository : relation spatial.Repository :=
  rtc (λ r r', ∃ mesh, r' = snd (spatial.processMeshForStorage r mesh)).

(** The chain of bases [resolveDeltaMesh] follows from a mesh: [n] reads
    lead from the mesh to [root], the first mesh on the way that is not a
    delta on a base. *)
Inductive baseChain {DB : Type} (Collection : DB → string → option string)
    (ReadDocument : DB → string → spatial.readResult) (d : DB)
  : nat → Mesh.t → Mesh.t → Prop :=
  | baseChain_root m :
      Mesh.IsDelta m = false ∨ Mesh.BaseMeshID m = "" →
      baseChain Collection ReadDocument d 0 m m
  | baseChain_step n m b root :
      Mesh.IsDelta m = true → Mesh.BaseMeshID m ≠ "" →
      Collection d spatial.MeshesCollection = None →
      ReadDocument d (Mesh.BaseMeshID m) = spatial.Found b →
      baseChain Collection ReadDocument d n b root →
      baseChain Collection ReadDocument d (S n) m root.

(** The two kinds of error the repository makes. *)
Definition api_kind (e : errors.APIError) : Prop :=
  (errors.StatusCode e = 400 ∧ errors.Code e = "VALIDATION_ERROR")
  ∨ (errors.StatusCode e = 500 ∧ errors.Code e = "DATABASE_ERROR").

(** A mesh under another id and timestamp. *)
Definition relabel (d base : Mesh.t) : Mesh.t :=
  Mesh.with_Timestamp (Mesh.Timestamp d) (Mesh.with_ID (Mesh.ID d) base).

(** ** An in-memory document store

    A stand-in for the store behind the driver, with documents kept under
    their id; no call on it fails except a read of a missing document. *)

Module memdb.

Record DB := {
  anchors : gmap string Anchor.t;
  meshes : gmap string Mesh.t
}.

Definition empty : DB := {| anchors := ∅; meshes := ∅ |}.

Definition Collection (d : DB) (name : string) : option string := None.

Definition UpsertAnchor (d : DB) (a : Anchor.t) : string + DB :=
  inr {| anchors := <[Anchor.ID a := a]> (anchors d); meshes := meshes d |}.

Definition ReadDocument (d : DB) (key : string) : spatial.readResult :=
  match meshes d !! key with
  | Some m => spatial.Found m
  | None => spatial.NotFound "document not found"
  end.

Definition CreateDocument (d : DB) (m : Mesh.t) : string + DB :=
  inr {| anchors := anchors d; meshes := <[Mesh.ID m := m]> (meshes d) |}.

Definition withMeshes (ms : list Mesh.t) : DB :=
  {| anchors := ∅; meshes := list_to_map (map (λ m, (Mesh.ID m, m)) ms) |}.

Definition state (d : DB) : spatial.State DB :=
  {| spatial.repo := spatial.NewRepository; spatial.db := d; spatial.metrics := [] |}.

End memdb.

(** ** Concrete data used below *)

Module sample.

Definition mesh (id : string) (v f n : list byte) : Mesh.t :=
  {| Mesh.ID := id; Mesh.AnchorID := "anchor1"; Mesh.Vertices := v; Mesh.Faces := f;
     Mesh.Normals := n; Mesh.Hash := ""; Mesh.IsDelta := false; Mesh.BaseMeshID := "";
     Mesh.DeltaData := []; Mesh.CompressionLevel := 0; Mesh.Timestamp := 1 |}.

(** The meshes of [TestMeshDeduplication]. *)
Definition mesh1 : Mesh.t := mesh "mesh1" [x01; x02; x03; x04; x05; x06] [x00; x01; x02] [].
Definition mesh2 : Mesh.t := mesh "mesh2" [x01; x02; x03; x04; x05; x06] [x00; x01; x02] [].

(** Two meshes that split the same three bytes differently. *)
Definition meshA : Mesh.t := mesh "m-A" [x01] [x02; x03] [].
Definition meshB : Mesh.t := mesh "m-B" [x01; x02] [x03] [].

Definition delta (base : string) (v f n d : list byte) : Mesh.t :=
  {| Mesh.ID := "delta1"; Mesh.AnchorID := "anchor1"; Mesh.Vertices := v; Mesh.Faces := f;
     Mesh.Normals := n; Mesh.Hash := ""; Mesh.IsDelta := true; Mesh.BaseMeshID := base;
     Mesh.DeltaData := d; Mesh.CompressionLevel := 0; Mesh.Timestamp := 1 |}.

(** The delta mesh of [TestDeltaMeshValidation], without and with a base. *)
Definition deltaNoBase : Mesh.t := delta "" [] [] [] [x01; x02; x03].
Definition deltaOnBase : Mesh.t := delta "base1" [x09] [x08] [x07] [x01; x02; x03].

(** A delta mesh on a base that carries geometry and no delta payload. *)
Definition deltaEmpty : Mesh.t := delta "base1" [x01] [x02] [x03] [].

Definition anchor (id : string) (ts : Z) : Anchor.t :=
  {| Anchor.ID := id; Anchor.SessionID := "s1";
     Anchor.Pose := {| Pose.X := 1; Pose.Y := 2; Pose.Z := 3; Pose.Rotation := [0; 0; 0; 1]%float |};
     Anchor.Timestamp := ts |}.

Definition params (session : string) (limit : Z) : QueryParams.t :=
  {| QueryParams.SessionID := session; QueryParams.AnchorID := "";
     QueryParams.Radius := 0; QueryParams.Since := 0; QueryParams.Until := 0;
     QueryParams.Limit := limit; QueryParams.IncludeMeshes := false;
     QueryParams.IncludeDeleted := false |}.

Definition client (n : nat) : websocket.Client := (n, "cap").

(** Clients 1 to [n] connecting to the session "cap". *)
Definition registers (n : nat) : list websocket.event :=
  map (λ i, websocket.Register (client i)) (seq 1 n).

(** The hub after a list of events, from [NewHub]. *)
Definition hubAfter (evs : list websocket.event) : websocket.Hub :=
  match websocket.run evs websocket.NewHub with
  | websocket.Done h => h
  | _ => websocket.NewHub
  end.

(** Two clients of session "s2" and a frame the first one has sent in. *)
Definition clientA : websocket.Client := (1%nat, "s2").
Definition clientB : websocket.Client := (2%nat, "s2").
Definition twoClients : list websocket.event :=
  [websocket.Register clientA; websocket.Register clientB].
Definition frame : list byte := [x7b; x7d].
Definition update : websocket.WSMessage :=
  {| websocket.Type_ := "anchor_update"; websocket.WSSessionID := "s2";
     websocket.Data := frame; websocket.Timestamp := 1; websocket.TraceID := "" |}.
Definition fromA : websocket.BroadcastMessage :=
  {| websocket.SessionID := "s2"; websocket.Message := frame;
     websocket.Exclude := Some clientA |}.

End sample.

Module fixtures.

Definition deltaOn (id base : string) (payload : list byte) (ts : Z) : Mesh.t :=
  {| Mesh.ID := id; Mesh.AnchorID := "anchor1"; Mesh.Vertices := payload; Mesh.Faces := [];
     Mesh.Normals := []; Mesh.Hash := ""; Mesh.IsDelta := true; Mesh.BaseMeshID := base;
     Mesh.DeltaData := payload; Mesh.CompressionLevel := 0; Mesh.Timestamp := ts |}.

(** A full mesh with two deltas stacked on it. *)
Definition d1 : Mesh.t := deltaOn "d1" "mesh1" [x0a] 5.
Definition d2 : Mesh.t := deltaOn "d2" "d1" [x0b] 7.
Definition chainDB : memdb.DB := memdb.withMeshes [sample.mesh1; d1; d2].

(** A delta that names itself as its base. *)
Definition loop : Mesh.t := deltaOn "loop" "loop" [x01] 1.
Definition loopDB : memdb.DB := memdb.withMeshes [loop].

(** A delta whose base is not in the store. *)
Definition orphan : Mesh.t := deltaOn "orphan" "gone" [x01] 1.

(** An event with one anchor and a delta mesh that names no base. *)
Definition badEvent : SpatialEvent.t :=
  {| SpatialEvent.SessionID := "s1"; SpatialEvent.EventID := "e1";
     SpatialEvent.Timestamp := 1;
     SpatialEvent.Anchors := [sample.anchor "a1" 1];
     SpatialEvent.Meshes := [sample.mesh1; sample.deltaNoBase] |}.

(** The session "s2" with the second client's queue filled by 256
    broadcasts of the first. *)
Definition floodB : list websocket.event :=
  sample.twoClients ++ replicate 256 (websocket.Broadcast sample.fromA).

(** A live mesh update for a delta that names no base, with stand-in
    decoders: the envelope is taken to hold this update, and a base64 text
    decodes to its own bytes. *)
Definition badUpdate : live.MeshUpdate :=
  {| live.ID := "m9"; live.AnchorID := "a1"; live.Vertices := "AQID"; live.Faces := "";
     live.Normals := ""; live.CompressionLevel := 0; live.IsDelta := true;
     live.BaseMeshID := "" |}.
Definition badMessage : websocket.WSMessage :=
  {| websocket.Type_ := "mesh_update"; websocket.WSSessionID := "s2";
     websocket.Data := sample.frame; websocket.Timestamp := 9; websocket.TraceID := "t" |}.
Definition UnmarshalMeshUpdate (data : list byte) : string + live.MeshUpdate := inr badUpdate.
Definition UnmarshalAnchorUpdate (data : list byte) : string + live.AnchorUpdate :=
  inl "unexpected end of JSON input".
Definition DecodeString (s : string) : string + list byte :=
  inr (map byte_of_ascii (list_ascii_of_string s)).

End fixtures.

(** * Properties *)

(** ** Mesh hasher *)

(** The digest agrees with the standard's test vectors. *)
Example Sum256_abc :
  hex.EncodeToString (sha256.Sum256 [x61; x62; x63]) =
  "ba7816bf8f01cfea414140de5dae2223b00361a396177a9cb410ff61f20015ad".
Proof. vm_compute. reflexivity. Qed.

Example Sum256_empty :
  hex.EncodeToString (sha256.Sum256 []) =
  "e3b0c44298fc1c149afbf4c8996fb92427ae41e4649b934ca495991b7852b855".
Proof. vm_compute. reflexivity. Qed.

(** A message of 56 bytes, which pads to two blocks. *)
Example Sum256_two_blocks :
  hex.EncodeToString
    (sha256.Sum256
       (map byte_of_ascii
          (list_ascii_of_string
             "abcdbcdecdefdefgefghfghighijhijkijkljklmklmnlmnomnopnopq"))) =
  "248d6a61d20638b8e5c026930c3e6039a33ce45964ff2167f6ecedd419db06c1".
Proof. vm_compute. reflexivity. Qed.

(** [TestMeshDeduplication]: identical geometry, identical hash; other
    vertices, another hash. *)
Example TestMeshDeduplication :
  spatial.computeMeshHash sample.mesh1 = spatial.computeMeshHash sample.mesh2
  ∧ spatial.computeMeshHash sample.mesh1
    ≠ spatial.computeMeshHash
        (sample.mesh "mesh3" [x07; x08; x09; x0a; x0b; x0c] [x00; x01; x02] []).
Proof. split; vm_compute; [reflexivity|discriminate]. Qed.

Lemma hex_digit_in_table (n : nat) :
  In (hex.digit n) (list_ascii_of_string hex.hextable).
Proof.
  unfold hex.digit.
  do 16 (destruct n as [|n]; [vm_compute; tauto|]).
  vm_compute. tauto.
Qed.

Lemma hex_lowercase (bs : list byte) :
  Forall (λ c, In c (list_ascii_of_string hex.hextable))
         (list_ascii_of_string (hex.EncodeToString bs)).
Proof.
  induction bs as [|b bs IH]; cbn [hex.EncodeToString list_ascii_of_string].
  - constructor.
  - constructor; [apply hex_digit_in_table|].
    constructor; [apply hex_digit_in_table|exact IH].
Qed.

Lemma computeMeshHash_concat (m : Mesh.t) :
  spatial.computeMeshHash m =
  hex.EncodeToString (sha256.Sum256 (Mesh.Vertices m ++ Mesh.Faces m ++ Mesh.Normals m)).
Proof.
  unfold spatial.computeMeshHash, sha256.Sum, sha256.Write, sha256.New, spatial.len.
  destruct (Mesh.Normals m) as [|b n] eqn:Hn.
  - change (0 <? Z.of_nat (length (@nil byte))) with false. cbv iota.
    rewrite !app_nil_r. reflexivity.
  - replace (0 <? Z.of_nat (length (b :: n))) with true
      by (symmetry; apply Z.ltb_lt; cbn [length]; lia).
    cbv iota. rewrite <- app_assoc. reflexivity.
Qed.

Lemma computeMeshHash_ext (m1 m2 : Mesh.t) :
  Mesh.Vertices m1 ++ Mesh.Faces m1 ++ Mesh.Normals m1 =
  Mesh.Vertices m2 ++ Mesh.Faces m2 ++ Mesh.Normals m2 →
  spatial.computeMeshHash m1 = spatial.computeMeshHash m2.
Proof. intros H. rewrite !computeMeshHash_concat, H. reflexivity. Qed.

(** C5. [computeMeshHash] is the lowercase hexadecimal encoding of SHA-256
    over vertices, then faces, then normals (empty normals add nothing); it
    is a function of these three byte sequences; and on vertices 1..6 with
    faces 0,1,2 and no normals it is the digest of the nine bytes
    01 02 03 04 05 06 00 01 02. *)
Theorem computeMeshHash_sha256_hex (m m' : Mesh.t) :
  spatial.computeMeshHash m =
    hex.EncodeToString
      (sha256.Sum256
         (Mesh.Vertices m ++ Mesh.Faces m ++
          (if decide (Mesh.Normals m = []) then [] else Mesh.Normals m)))
  ∧ Forall (λ c, In c (list_ascii_of_string "0123456789abcdef"))
           (list_ascii_of_string (spatial.computeMeshHash m))
  ∧ (Mesh.Vertices m = Mesh.Vertices m' → Mesh.Faces m = Mesh.Faces m' →
     Mesh.Normals m = Mesh.Normals m' →
     spatial.computeMeshHash m = spatial.computeMeshHash m')
  ∧ spatial.computeMeshHash sample.mesh1 =
      hex.EncodeToString
        (sha256.Sum256 [x01; x02; x03; x04; x05; x06; x00; x01; x02])
  ∧ spatial.computeMeshHash sample.mesh1 =
      "ff06acabc8eff733920050af247e22c2330b80d5eba1bff4c0c737c346cc3526".
Proof.
  split; [|split; [|split; [|split]]].
  - rewrite computeMeshHash_concat.
    destruct (decide (Mesh.Normals m = [])) as [->|]; reflexivity.
  - rewrite computeMeshHash_concat. apply hex_lowercase.
  - intros Hv Hf Hn. apply computeMeshHash_ext. rewrite Hv, Hf, Hn. reflexivity.
  - rewrite computeMeshHash_concat. reflexivity.
  - vm_compute. reflexivity.
Qed.

Lemma computeMeshHash_sha256_hex_witness :
  spatial.computeMeshHash sample.mesh1 = spatial.computeMeshHash sample.mesh2.
Proof.
  apply (computeMeshHash_sha256_hex sample.mesh1 sample.mesh2); reflexivity.
Defined.

(** ** Mesh processor *)

Lemma eqb_empty_false (s : string) : s ≠ "" → String.eqb s "" = false.
Proof. intros H. apply String.eqb_neq. exact H. Qed.

Lemma len_pos_iff (b : list byte) : (0 <? spatial.len b) = true ↔ b ≠ [].
Proof.
  unfold spatial.len. rewrite Z.ltb_lt.
  destruct b; cbn [length]; split; intros; try lia; congruence.
Qed.

Lemma len_pos_false (b : list byte) : (0 <? spatial.len b) = false ↔ b = [].
Proof.
  unfold spatial.len. rewrite Z.ltb_ge.
  destruct b; cbn [length]; split; intros; try lia; congruence.
Qed.

(** The delta branch: a delta mesh with a base is accepted, the cache is
    left alone, and the geometry is replaced exactly when there is a delta
    payload. *)
Lemma processMeshForStorage_delta_ok (r : spatial.Repository) (m : Mesh.t) :
  Mesh.IsDelta m = true → Mesh.BaseMeshID m ≠ "" →
  spatial.processMeshForStorage r m =
    (Ok (if 0 <? spatial.len (Mesh.DeltaData m)
         then Mesh.with_geometry (Mesh.DeltaData m) [] [] m else m, 0), r).
Proof.
  intros Hd Hb. unfold spatial.processMeshForStorage.
  rewrite Hd, (eqb_empty_false _ Hb). reflexivity.
Qed.

Lemma processMeshForStorage_delta_err (r : spatial.Repository) (m : Mesh.t) :
  Mesh.IsDelta m = true → Mesh.BaseMeshID m = "" →
  spatial.processMeshForStorage r m =
    (Err (errors.ValidationError "delta mesh missing base_mesh_id"), r).
Proof.
  intros Hd Hb. unfold spatial.processMeshForStorage.
  rewrite Hd, Hb. reflexivity.
Qed.

(** The full-mesh branch on a cache miss and on a cache hit. *)
Lemma processMeshForStorage_miss (r : spatial.Repository) (m : Mesh.t) :
  Mesh.IsDelta m = false →
  spatial.meshHashCache r !! spatial.computeMeshHash m = None →
  spatial.processMeshForStorage r m =
    (Ok (Mesh.with_Hash (spatial.computeMeshHash m) m, 0),
     spatial.with_cache
       (<[spatial.computeMeshHash m := Mesh.ID m]> (spatial.meshHashCache r)) r).
Proof.
  intros Hd Hc. unfold spatial.processMeshForStorage.
  rewrite Hd, Hc. reflexivity.
Qed.

Lemma processMeshForStorage_hit (r : spatial.Repository) (m : Mesh.t) (id : string) :
  Mesh.IsDelta m = false →
  spatial.meshHashCache r !! spatial.computeMeshHash m = Some id →
  spatial.processMeshForStorage r m =
    (Ok (Mesh.with_ID id (Mesh.with_Hash (spatial.computeMeshHash m) m),
         spatial.len (Mesh.Vertices m) + spatial.len (Mesh.Faces m)
         + spatial.len (Mesh.Normals m)), r).
Proof.
  intros Hd Hc. unfold spatial.processMeshForStorage.
  rewrite Hd, Hc. reflexivity.
Qed.

(** [TestDeltaMeshValidation]: without a base the delta mesh is refused;
    with one it is accepted and its delta data is in the vertices. *)
Example TestDeltaMeshValidation :
  (∃ e, fst (spatial.processMeshForStorage spatial.NewRepository sample.deltaNoBase) = Err e)
  ∧ ∃ m saved,
      fst (spatial.processMeshForStorage spatial.NewRepository
             (sample.delta "base1" [] [] [] [x01; x02; x03])) = Ok (m, saved)
      ∧ Mesh.Vertices m = [x01; x02; x03].
Proof. split; [eexists; reflexivity|]. eexists _, _. split; reflexivity. Qed.

(** C2, as stated, fails: a delta mesh on a base that has no delta payload
    is returned with the vertices, faces and normals it came with. *)
Lemma delta_without_payload_keeps_geometry :
  Mesh.IsDelta sample.deltaEmpty = true
  ∧ Mesh.BaseMeshID sample.deltaEmpty ≠ ""
  ∧ ∃ m', fst (spatial.processMeshForStorage spatial.NewRepository sample.deltaEmpty)
          = Ok (m', 0)
     ∧ Mesh.Vertices m' ≠ Mesh.DeltaData sample.deltaEmpty
     ∧ Mesh.Faces m' ≠ []
     ∧ Mesh.Normals m' ≠ [].
Proof.
  split; [reflexivity|]. split; [discriminate|].
  exists sample.deltaEmpty. repeat split; discriminate.
Qed.

(** C2, amended. A delta mesh with a non-empty base id is accepted with 0
    bytes saved; when its delta payload is non-empty the returned mesh has
    the payload as vertices and no faces or normals, and when the payload is
    empty the mesh is returned as it came. *)
Theorem processMeshForStorage_delta (r : spatial.Repository) (m : Mesh.t) :
  Mesh.IsDelta m = true → Mesh.BaseMeshID m ≠ "" →
  ∃ m', spatial.processMeshForStorage r m = (Ok (m', 0), r)
    ∧ (Mesh.DeltaData m ≠ [] →
       Mesh.Vertices m' = Mesh.DeltaData m ∧ Mesh.Faces m' = [] ∧ Mesh.Normals m' = [])
    ∧ (Mesh.DeltaData m = [] → m' = m).
Proof.
  intros Hd Hb. rewrite (processMeshForStorage_delta_ok r m Hd Hb).
  destruct (0 <? spatial.len (Mesh.DeltaData m)) eqn:Hlen.
  - apply len_pos_iff in Hlen. eexists. split; [reflexivity|].
    split; [intros _; repeat split | intros He; contradiction].
  - apply len_pos_false in Hlen. exists m. split; [reflexivity|].
    split; [intros Hne; contradiction | reflexivity].
Qed.

Lemma processMeshForStorage_delta_witness :
  ∃ m', spatial.processMeshForStorage spatial.NewRepository sample.deltaOnBase
        = (Ok (m', 0), spatial.NewRepository)
    ∧ (Mesh.DeltaData sample.deltaOnBase ≠ [] →
       Mesh.Vertices m' = Mesh.DeltaData sample.deltaOnBase
       ∧ Mesh.Faces m' = [] ∧ Mesh.Normals m' = [])
    ∧ (Mesh.DeltaData sample.deltaOnBase = [] → m' = sample.deltaOnBase).
Proof.
  apply (processMeshForStorage_delta spatial.NewRepository sample.deltaOnBase).
  - reflexivity.
  - discriminate.
Defined.

(** C4. Two full meshes with the same vertices, faces and normals have the
    same hash; when the first misses the cache it comes back with its hash
    attached, nothing else changed, and 0 bytes saved, and the second, run
    on the repository the first left behind, comes back under the first
    mesh's id with the sum of the three lengths saved. *)
Theorem processMeshForStorage_dedup (r : spatial.Repository) (m1 m2 : Mesh.t) :
  Mesh.IsDelta m1 = false → Mesh.IsDelta m2 = false →
  Mesh.Vertices m1 = Mesh.Vertices m2 →
  Mesh.Faces m1 = Mesh.Faces m2 →
  Mesh.Normals m1 = Mesh.Normals m2 →
  spatial.meshHashCache r !! spatial.computeMeshHash m1 = None →
  let hash := spatial.computeMeshHash m1 in
  let '(res1, r1) := spatial.processMeshForStorage r m1 in
  let '(res2, r2) := spatial.processMeshForStorage r1 m2 in
  spatial.computeMeshHash m2 = hash
  ∧ res1 = Ok (Mesh.with_Hash hash m1, 0)
  ∧ spatial.meshHashCache r1 !! hash = Some (Mesh.ID m1)
  ∧ res2 = Ok (Mesh.with_ID (Mesh.ID m1) (Mesh.with_Hash hash m2),
               spatial.len (Mesh.Vertices m2) + spatial.len (Mesh.Faces m2)
               + spatial.len (Mesh.Normals m2))
  ∧ r2 = r1.
Proof.
  intros Hd1 Hd2 Hv Hf Hn Hmiss hash.
  assert (Hh : spatial.computeMeshHash m2 = hash).
  { symmetry. apply computeMeshHash_ext. rewrite Hv, Hf, Hn. reflexivity. }
  rewrite (processMeshForStorage_miss r m1 Hd1 Hmiss). fold hash.
  assert (Hhit : spatial.meshHashCache
                   (spatial.with_cache (<[hash := Mesh.ID m1]> (spatial.meshHashCache r)) r)
                 !! spatial.computeMeshHash m2 = Some (Mesh.ID m1)).
  { rewrite Hh. cbn [spatial.meshHashCache spatial.with_cache]. apply lookup_insert_eq. }
  rewrite (processMeshForStorage_hit _ m2 _ Hd2 Hhit), Hh.
  rewrite Hh in Hhit. repeat split; assumption.
Qed.

Lemma processMeshForStorage_dedup_witness :
  let '(res1, r1) := spatial.processMeshForStorage spatial.NewRepository sample.mesh1 in
  let '(res2, r2) := spatial.processMeshForStorage r1 sample.mesh2 in
  spatial.computeMeshHash sample.mesh2 = spatial.computeMeshHash sample.mesh1
  ∧ res1 = Ok (Mesh.with_Hash (spatial.computeMeshHash sample.mesh1) sample.mesh1, 0)
  ∧ spatial.meshHashCache r1 !! spatial.computeMeshHash sample.mesh1
    = Some (Mesh.ID sample.mesh1)
  ∧ res2 = Ok (Mesh.with_ID (Mesh.ID sample.mesh1)
                 (Mesh.with_Hash (spatial.computeMeshHash sample.mesh1) sample.mesh2),
               spatial.len (Mesh.Vertices sample.mesh2)
               + spatial.len (Mesh.Faces sample.mesh2)
               + spatial.len (Mesh.Normals sample.mesh2))
  ∧ r2 = r1.
Proof.
  apply (processMeshForStorage_dedup spatial.NewRepository sample.mesh1 sample.mesh2);
    reflexivity.
Defined.

(** C6, as stated, fails on the message: the error for a delta mesh without
    a base carries the validation prefix. *)
Lemma delta_error_message_has_prefix :
  ∃ e, fst (spatial.processMeshForStorage spatial.NewRepository sample.deltaNoBase) = Err e
    ∧ errors.Message e ≠ "delta mesh missing base_mesh_id"
    ∧ errors.Message e = "validation error: delta mesh missing base_mesh_id".
Proof.
  eexists. split; [reflexivity|]. split; [discriminate|reflexivity].
Qed.

(** C6, amended. [processMeshForStorage] fails exactly on a delta mesh with
    an empty base id; the error then has code VALIDATION_ERROR, status 400
    and message "validation error: delta mesh missing base_mesh_id"; every
    other mesh yields a mesh and a byte count. *)
Theorem processMeshForStorage_error_iff (r : spatial.Repository) (m : Mesh.t) :
  ((∃ e, fst (spatial.processMeshForStorage r m) = Err e)
   ↔ Mesh.IsDelta m = true ∧ Mesh.BaseMeshID m = "")
  ∧ (∀ e, fst (spatial.processMeshForStorage r m) = Err e →
       e = {| errors.Message := "validation error: delta mesh missing base_mesh_id";
              errors.StatusCode := 400;
              errors.Code := "VALIDATION_ERROR" |})
  ∧ (¬ (Mesh.IsDelta m = true ∧ Mesh.BaseMeshID m = "") →
       ∃ m' saved, fst (spatial.processMeshForStorage r m) = Ok (m', saved)).
Proof.
  destruct (Mesh.IsDelta m) eqn:Hd.
  - destruct (decide (Mesh.BaseMeshID m = "")) as [Hb|Hb].
    + rewrite (processMeshForStorage_delta_err r m Hd Hb). cbn [fst].
      split; [|split].
      * split; [intros _; split; [reflexivity|exact Hb] | intros _; eexists; reflexivity].
      * intros e [= <-]. reflexivity.
      * intros Hn. exfalso. apply Hn. split; [reflexivity|exact Hb].
    + rewrite (processMeshForStorage_delta_ok r m Hd Hb). cbn [fst].
      split; [|split].
      * split; [intros [e He]; discriminate | intros [_ He]; contradiction].
      * intros e He. discriminate.
      * intros _. eexists _, _. reflexivity.
  - destruct (spatial.meshHashCache r !! spatial.computeMeshHash m) as [id|] eqn:Hc.
    + rewrite (processMeshForStorage_hit r m id Hd Hc). cbn [fst].
      split; [|split].
      * split; [intros [e He]; discriminate | intros [Ht _]; discriminate].
      * intros e He. discriminate.
      * intros _. eexists _, _. reflexivity.
    + rewrite (processMeshForStorage_miss r m Hd Hc). cbn [fst].
      split; [|split].
      * split; [intros [e He]; discriminate | intros [Ht _]; discriminate].
      * intros e He. discriminate.
      * intros _. eexists _, _. reflexivity.
Qed.

Lemma processMeshForStorage_error_iff_witness :
  errors.ValidationError "delta mesh missing base_mesh_id" =
    {| errors.Message := "validation error: delta mesh missing base_mesh_id";
       errors.StatusCode := 400;
       errors.Code := "VALIDATION_ERROR" |}
  ∧ ∃ m' saved,
      fst (spatial.processMeshForStorage spatial.NewRepository sample.deltaOnBase)
      = Ok (m', saved).
Proof.
  split.
  - apply (proj1 (proj2 (processMeshForStorage_error_iff
                           spatial.NewRepository sample.deltaNoBase))).
    reflexivity.
  - apply (proj2 (proj2 (processMeshForStorage_error_iff
                           spatial.NewRepository sample.deltaOnBase))).
    intros [_ H]. discriminate H.
Defined.

(** C10. Meshes whose vertices, faces and normals concatenate to the same
    bytes hash alike, whatever the split; with vertices 1 and faces 2,3
    against vertices 1,2 and faces 3 the fields differ, the hashes agree,
    and the second mesh, processed after the first, is handed back as a
    duplicate under the first mesh's id. *)
Theorem computeMeshHash_split_collision :
  (∀ m1 m2 : Mesh.t,
     Mesh.Vertices m1 ++ Mesh.Faces m1 ++ Mesh.Normals m1 =
     Mesh.Vertices m2 ++ Mesh.Faces m2 ++ Mesh.Normals m2 →
     spatial.computeMeshHash m1 = spatial.computeMeshHash m2)
  ∧ Mesh.IsDelta sample.meshA = false ∧ Mesh.IsDelta sample.meshB = false
  ∧ Mesh.Vertices sample.meshA ≠ Mesh.Vertices sample.meshB
  ∧ Mesh.Faces sample.meshA ≠ Mesh.Faces sample.meshB
  ∧ Mesh.ID sample.meshA ≠ Mesh.ID sample.meshB
  ∧ spatial.computeMeshHash sample.meshA = spatial.computeMeshHash sample.meshB
  ∧ let '(res1, r1) := spatial.processMeshForStorage spatial.NewRepository sample.meshA in
    let '(res2, r2) := spatial.processMeshForStorage r1 sample.meshB in
    ∃ a b, res1 = Ok (a, 0) ∧ Mesh.ID a = Mesh.ID sample.meshA
      ∧ res2 = Ok (b, 3) ∧ Mesh.ID b = Mesh.ID sample.meshA
      ∧ Mesh.Vertices b = Mesh.Vertices sample.meshB
      ∧ Mesh.Faces b = Mesh.Faces sample.meshB.
Proof.
  split; [exact computeMeshHash_ext|].
  assert (Hh : spatial.computeMeshHash sample.meshA = spatial.computeMeshHash sample.meshB)
    by (apply computeMeshHash_ext; reflexivity).
  do 2 (split; [reflexivity|]). do 3 (split; [discriminate|]).
  split; [exact Hh|].
  rewrite (processMeshForStorage_miss spatial.NewRepository sample.meshA eq_refl eq_refl).
  erewrite (processMeshForStorage_hit _ sample.meshB (Mesh.ID sample.meshA) eq_refl).
  - eexists _, _. repeat split; reflexivity.
  - rewrite <- Hh. cbn [spatial.meshHashCache spatial.with_cache]. apply lookup_insert_eq.
Qed.

Lemma computeMeshHash_split_collision_witness :
  spatial.computeMeshHash sample.meshA = spatial.computeMeshHash sample.meshB.
Proof.
  apply (proj1 computeMeshHash_split_collision sample.meshA sample.meshB).
  reflexivity.
Defined.

(** ** Query planner *)

Lemma append_assoc (a b c : string) : (a +:+ b) +:+ c = a +:+ b +:+ c.
Proof.
  induction a as [|x a IH]; [reflexivity|].
  change (String x ((a +:+ b) +:+ c) = String x (a +:+ b +:+ c)).
  f_equal. exact IH.
Qed.

Ltac planner_cases p :=
  unfold spatial.buildQuery;
  destruct (String.eqb (QueryParams.SessionID p) "");
  destruct (0 <? QueryParams.Since p);
  destruct (0 <? QueryParams.Until p);
  destruct (negb (String.eqb (QueryParams.AnchorID p) "")
            && PrimFloat.ltb 0 (QueryParams.Radius p));
  destruct (0 <? QueryParams.Limit p);
  cbv beta iota zeta delta [negb fst snd].

(** The text of the query depends on which filters apply and on the limit,
    and on nothing else: session id, time bounds, anchor id and radius reach
    the store through the bind variables only. *)
Lemma buildQuery_text_shape (p q : QueryParams.t) :
  String.eqb (QueryParams.SessionID p) "" = String.eqb (QueryParams.SessionID q) "" →
  (0 <? QueryParams.Since p) = (0 <? QueryParams.Since q) →
  (0 <? QueryParams.Until p) = (0 <? QueryParams.Until q) →
  negb (String.eqb (QueryParams.AnchorID p) "") && PrimFloat.ltb 0 (QueryParams.Radius p)
  = negb (String.eqb (QueryParams.AnchorID q) "") && PrimFloat.ltb 0 (QueryParams.Radius q) →
  QueryParams.Limit p = QueryParams.Limit q →
  fst (spatial.buildQuery p) = fst (spatial.buildQuery q).
Proof.
  intros Hs Hsi Hu Ha Hl. unfold spatial.buildQuery.
  rewrite Hs, Hsi, Hu, Ha, Hl.
  destruct (String.eqb (QueryParams.SessionID q) "");
  destruct (0 <? QueryParams.Since q);
  destruct (0 <? QueryParams.Until q);
  destruct (negb (String.eqb (QueryParams.AnchorID q) "")
            && PrimFloat.ltb 0 (QueryParams.Radius q));
  destruct (0 <? QueryParams.Limit q); reflexivity.
Qed.

(** The values the planner binds. *)
Lemma buildQuery_binds (p : QueryParams.t) :
  let b := snd (spatial.buildQuery p) in
  (QueryParams.SessionID p ≠ "" →
     b !! "session_id" = Some (spatial.VString (QueryParams.SessionID p)))
  ∧ (0 < QueryParams.Since p → b !! "since" = Some (spatial.VInt (QueryParams.Since p)))
  ∧ (0 < QueryParams.Until p → b !! "until" = Some (spatial.VInt (QueryParams.Until p)))
  ∧ (0 < QueryParams.Limit p → b !! "limit" = Some (spatial.VInt (QueryParams.Limit p))).
Proof.
  intros b. subst b. repeat split.
  - intros H. apply eqb_empty_false in H. unfold spatial.buildQuery. rewrite H.
    destruct (0 <? QueryParams.Since p);
    destruct (0 <? QueryParams.Until p);
    destruct (negb (String.eqb (QueryParams.AnchorID p) "")
              && PrimFloat.ltb 0 (QueryParams.Radius p));
    destruct (0 <? QueryParams.Limit p);
    cbv beta iota zeta delta [negb fst snd]; by simplify_map_eq.
  - intros H. apply Z.ltb_lt in H. unfold spatial.buildQuery. rewrite H.
    destruct (String.eqb (QueryParams.SessionID p) "");
    destruct (0 <? QueryParams.Until p);
    destruct (negb (String.eqb (QueryParams.AnchorID p) "")
              && PrimFloat.ltb 0 (QueryParams.Radius p));
    destruct (0 <? QueryParams.Limit p);
    cbv beta iota zeta delta [negb fst snd]; by simplify_map_eq.
  - intros H. apply Z.ltb_lt in H. unfold spatial.buildQuery. rewrite H.
    destruct (String.eqb (QueryParams.SessionID p) "");
    destruct (0 <? QueryParams.Since p);
    destruct (negb (String.eqb (QueryParams.AnchorID p) "")
              && PrimFloat.ltb 0 (QueryParams.Radius p));
    destruct (0 <? QueryParams.Limit p);
    cbv beta iota zeta delta [negb fst snd]; by simplify_map_eq.
  - intros H. apply Z.ltb_lt in H. unfold spatial.buildQuery. rewrite H.
    destruct (String.eqb (QueryParams.SessionID p) "");
    destruct (0 <? QueryParams.Since p);
    destruct (0 <? QueryParams.Until p);
    destruct (negb (String.eqb (QueryParams.AnchorID p) "")
              && PrimFloat.ltb 0 (QueryParams.Radius p));
    cbv beta iota zeta delta [negb fst snd]; by simplify_map_eq.
Qed.

(** C3. The limit is written into the query text: every planned query ends
    in a LIMIT clause spelling out the limit in decimal (100 when the limit
    is not positive); with session "s1" and limit 7 the text reads LIMIT 7
    while the value is also bound as "limit", and limit 8 gives another
    text. *)
Theorem buildQuery_limit_in_text :
  (∀ p : QueryParams.t, ∃ pre,
     fst (spatial.buildQuery p) =
       pre +:+ spatial.nl +:+ "LIMIT "
       +:+ (if 0 <? QueryParams.Limit p
            then spatial.Sprintf_d (QueryParams.Limit p) else "100")
       +:+ spatial.nl +:+ "RETURN doc")
  ∧ fst (spatial.buildQuery (sample.params "s1" 7)) = "FOR doc IN @@collection
FILTER doc.session_id == @session_id
SORT doc.timestamp DESC
LIMIT 7
RETURN doc"
  ∧ snd (spatial.buildQuery (sample.params "s1" 7)) !! "limit" = Some (spatial.VInt 7)
  ∧ fst (spatial.buildQuery (sample.params "s1" 8))
    ≠ fst (spatial.buildQuery (sample.params "s1" 7)).
Proof.
  split; [|split; [|split]].
  - intros p. planner_cases p;
      lazymatch goal with
      | |- ∃ _, (?q +:+ _) +:+ _ = _ => exists q; rewrite !append_assoc; reflexivity
      end.
  - vm_compute. reflexivity.
  - vm_compute. reflexivity.
  - vm_compute. discriminate.
Qed.

(** ** The single-anchor endpoint *)

(** The query [GetAnchor] plans is the same for every id: no filter, the
    newest document first, one document. *)
Lemma buildQuery_anchorParams (id : string) :
  spatial.buildQuery (handlers.anchorParams id) =
    ("FOR doc IN @@collection
SORT doc.timestamp DESC
LIMIT 1
RETURN doc",
     <["limit" := spatial.VInt 1]>
       {[ "@collection" := spatial.VString "anchors" ]}).
Proof.
  unfold spatial.buildQuery, handlers.anchorParams.
  cbn [QueryParams.SessionID QueryParams.AnchorID QueryParams.Radius QueryParams.Since
       QueryParams.Until QueryParams.Limit].
  replace (PrimFloat.ltb 0 0) with false by (vm_compute; reflexivity).
  rewrite andb_false_r. reflexivity.
Qed.

Lemma GetAnchor_id_independent
    (db : string → gmap string spatial.value → spatial.cursor)
    (load : list Anchor.t → result (list Mesh.t)) (id1 id2 : string) :
  id1 ≠ "" → id2 ≠ "" →
  handlers.GetAnchor db load id1 = handlers.GetAnchor db load id2.
Proof.
  intros H1 H2. unfold handlers.GetAnchor, spatial.Query.
  rewrite (eqb_empty_false _ H1), (eqb_empty_false _ H2).
  rewrite !buildQuery_anchorParams. reflexivity.
Qed.

(** C1 fails on the code. Whatever the id, the planned query carries no
    filter and does not bind the id; so on a store holding only anchor "b"
    a request for "a" is answered 200 with "b" (404 expected), and on a
    store holding "a" and a newer "b" a request for "a" is answered with
    "b". *)
Theorem GetAnchor_returns_newest_anchor :
  (∀ id, fst (spatial.buildQuery (handlers.anchorParams id)) = "FOR doc IN @@collection
SORT doc.timestamp DESC
LIMIT 1
RETURN doc"
         ∧ snd (spatial.buildQuery (handlers.anchorParams id)) !! "anchor_id" = None)
  ∧ handlers.GetAnchor (memstore.Query [sample.anchor "b" 2])
      memstore.loadMeshesForAnchors "a"
    = (200, handlers.JSONAnchor (sample.anchor "b" 2))
  ∧ handlers.GetAnchor (memstore.Query [sample.anchor "a" 1; sample.anchor "b" 2])
      memstore.loadMeshesForAnchors "a"
    = (200, handlers.JSONAnchor (sample.anchor "b" 2))
  ∧ Anchor.ID (sample.anchor "b" 2) ≠ "a".
Proof.
  split; [|split; [|split]].
  - intros id. rewrite buildQuery_anchorParams. split; [reflexivity|].
    cbn [snd]. by simplify_map_eq.
  - vm_compute. reflexivity.
  - vm_compute. reflexivity.
  - discriminate.
Qed.

(** ** Session hub *)

Section Hub.
Import websocket.

Lemma send_insert_eq (h : Hub) (c : Client) (ch : Chan) (cl : gmap string (gset Client))
    (g : gmap string Z) (m : Z) :
  send {| clients := cl; sends := <[c := ch]> (sends h);
          WSConnectionsActive := g; maxClientsPerSession := m |} c = ch.
Proof. unfold send. cbn [sends]. by rewrite lookup_insert_eq. Qed.

Lemma send_insert_ne (h : Hub) (c c' : Client) (ch : Chan) (cl : gmap string (gset Client))
    (g : gmap string Z) (m : Z) :
  c ≠ c' →
  send {| clients := cl; sends := <[c := ch]> (sends h);
          WSConnectionsActive := g; maxClientsPerSession := m |} c' = send h c'.
Proof. intros H. unfold send. cbn [sends]. by rewrite lookup_insert_ne. Qed.

Lemma close_open (ch : Chan) :
  closed ch = false → close ch = Some {| buf := buf ch; closed := true |}.
Proof. intros H. unfold close. by rewrite H. Qed.

Lemma close_Some (ch ch' : Chan) :
  close ch = Some ch' → closed ch = false ∧ closed ch' = true ∧ buf ch' = buf ch.
Proof.
  unfold close. destruct (closed ch) eqn:E; [discriminate|].
  intros [= <-]. auto.
Qed.

Lemma size_add_le (c : Client) (X : gset Client) : (size ({[c]} ∪ X) ≤ S (size X))%nat.
Proof.
  rewrite size_union_alt, size_singleton.
  apply le_n_S, subseteq_size, subseteq_difference_l. reflexivity.
Qed.

(** The two ways [registerClient] goes, by the size of the session's set. *)
Lemma registerClient_cases (h : Hub) (c : Client) :
  maxClientsPerSession h = 10 →
  ((10 ≤ size (sessionClients h (sessionID c)))%nat
   ∧ registerClient h c =
       match close (send h c) with
       | None => Panic "close of closed channel"
       | Some ch =>
           Done {| clients := clients h; sends := <[c := ch]> (sends h);
                   WSConnectionsActive := WSConnectionsActive h;
                   maxClientsPerSession := maxClientsPerSession h |}
       end)
  ∨ ((size (sessionClients h (sessionID c)) < 10)%nat
     ∧ registerClient h c =
         Done {| clients :=
                   <[sessionID c := {[c]} ∪ sessionClients h (sessionID c)]> (clients h);
                 sends := sends h;
                 WSConnectionsActive :=
                   <[sessionID c := gauge h (sessionID c) + 1]> (WSConnectionsActive h);
                 maxClientsPerSession := maxClientsPerSession h |}).
Proof.
  intros Hmax. unfold registerClient, sessionClients. rewrite Hmax.
  destruct (clients h !! sessionID c) as [set|] eqn:E.
  - rewrite E. change (default ∅ (Some set)) with set.
    destruct (10 <=? Z.of_nat (size set)) eqn:Hcap.
    + left. apply Z.leb_le in Hcap. split; [lia|reflexivity].
    + right. apply Z.leb_gt in Hcap. split; [lia|reflexivity].
  - rewrite lookup_insert_eq.
    change (default ∅ (Some ∅)) with (∅ : gset Client).
    change (default ∅ None) with (∅ : gset Client).
    rewrite size_empty. right. split; [lia|].
    change (10 <=? Z.of_nat 0) with false. cbv iota.
    by rewrite insert_insert_eq.
Qed.

(** The two ways [unregisterClient] goes, by membership in the session's
    set. *)
Lemma unregisterClient_cases (h : Hub) (c : Client) :
  ((c ∈ sessionClients h (sessionID c))
   ∧ unregisterClient h c =
       match close (send h c) with
       | None => Panic "close of closed channel"
       | Some ch =>
           Done {| clients :=
                     if (size (sessionClients h (sessionID c) ∖ {[c]}) =? 0)%nat
                     then delete (sessionID c) (clients h)
                     else <[sessionID c := sessionClients h (sessionID c) ∖ {[c]}]>
                            (clients h);
                   sends := <[c := ch]> (sends h);
                   WSConnectionsActive :=
                     <[sessionID c := gauge h (sessionID c) - 1]> (WSConnectionsActive h);
                   maxClientsPerSession := maxClientsPerSession h |}
       end)
  ∨ ((c ∉ sessionClients h (sessionID c)) ∧ unregisterClient h c = Done h).
Proof.
  unfold unregisterClient, sessionClients.
  destruct (clients h !! sessionID c) as [set|] eqn:E.
  - change (default ∅ (Some set)) with set.
    destruct (decide (c ∈ set)) as [Hin|Hout]; [left|right]; split; auto.
  - right. split; [|reflexivity]. change (default ∅ None) with (∅ : gset Client).
    set_solver.
Qed.

(** Entries of the session map once [c] has left its session's set. *)
Lemma lookup_after_unregister (cl : gmap string (gset Client)) (sid sid' : string)
    (set set' : gset Client) (c : Client) :
  cl !! sid = Some set →
  (if (size (set ∖ {[c]}) =? 0)%nat then delete sid cl else <[sid := set ∖ {[c]}]> cl)
    !! sid' = Some set' →
  (sid' = sid ∧ set' = set ∖ {[c]}) ∨ (sid' ≠ sid ∧ cl !! sid' = Some set').
Proof.
  intros Hs. destruct (decide (sid' = sid)) as [->|Hne].
  - destruct (size (set ∖ {[c]}) =? 0)%nat.
    + rewrite lookup_delete_eq. discriminate.
    + rewrite lookup_insert_eq. intros [= <-]. left. auto.
  - destruct (size (set ∖ {[c]}) =? 0)%nat.
    + rewrite lookup_delete_ne by congruence. auto.
    + rewrite lookup_insert_ne by congruence. auto.
Qed.

Lemma trySend_Sent (ch ch' : Chan) (frame : list byte) :
  trySend ch frame = Sent ch' →
  closed ch = false ∧ closed ch' = false ∧ buf ch' = buf ch ++ [frame].
Proof.
  unfold trySend. destruct (closed ch); [discriminate|].
  destruct (length (buf ch) <? sendCap)%nat; [|discriminate].
  intros [= <-]. auto.
Qed.

Lemma trySend_open (ch : Chan) (frame : list byte) :
  closed ch = false → trySend ch frame ≠ SendOnClosed.
Proof.
  unfold trySend. intros ->.
  destruct (length (buf ch) <? sendCap)%nat; discriminate.
Qed.

(** What a broadcast loop leaves behind: only the queues of the clients it
    visited can change, none of them is closed or reopened, and the excluded
    client's queue is left as it was. *)
Lemma deliver_frame (msg : BroadcastMessage) (order : list Client) :
  ∀ h h', hub_of (deliver order msg h) = Some h' →
    clients h' = clients h
    ∧ WSConnectionsActive h' = WSConnectionsActive h
    ∧ maxClientsPerSession h' = maxClientsPerSession h
    ∧ (∀ c, closed (send h' c) = closed (send h c))
    ∧ (∀ c, c ∉ order → sends h' !! c = sends h !! c)
    ∧ (∀ c, Exclude msg = Some c → sends h' !! c = sends h !! c).
Proof.
  induction order as [|client rest IH]; intros h h'; cbn [deliver].
  - intros [= <-]. repeat split; reflexivity.
  - destruct (decide (Some client = Exclude msg)) as [Hex|Hex].
    + intros H. destruct (IH _ _ H) as (Hc & Hg & Hm & Hcl & Hs & He).
      repeat split; auto. intros c Hc'. apply Hs.
      intros Hin. apply Hc'. by apply list_elem_of_further.
    + destruct (trySend (send h client) (Message msg)) as [ch| |] eqn:Hsend.
      * apply trySend_Sent in Hsend as (Hopen & Hopen' & _).
        intros H. destruct (IH _ _ H) as (Hc & Hg & Hm & Hcl & Hs & He).
        cbn [clients WSConnectionsActive maxClientsPerSession sends] in *.
        repeat split; auto.
        -- intros c. rewrite Hcl. destruct (decide (client = c)) as [<-|Hne].
           ++ rewrite send_insert_eq. congruence.
           ++ by rewrite send_insert_ne.
        -- intros c Hc'. rewrite Hs.
           ++ apply lookup_insert_ne. intros ->. apply Hc'. by apply list_elem_of_here.
           ++ intros Hin. apply Hc'. by apply list_elem_of_further.
        -- intros c Hc'. rewrite (He c Hc').
           apply lookup_insert_ne. intros ->. apply Hex. by rewrite Hc'.
      * intros [= <-]. repeat split; reflexivity.
      * discriminate.
Qed.

Lemma deliver_no_panic (msg : BroadcastMessage) (order : list Client) :
  ∀ h, (∀ c, c ∈ order → closed (send h c) = false) →
       ∀ reason, deliver order msg h ≠ Panic reason.
Proof.
  induction order as [|client rest IH]; intros h Hopen reason; cbn [deliver].
  - discriminate.
  - assert (Hrest : ∀ c, c ∈ rest → closed (send h c) = false)
      by (intros c Hc; apply Hopen; by apply list_elem_of_further).
    destruct (decide (Some client = Exclude msg)); [by apply IH|].
    destruct (trySend (send h client) (Message msg)) as [ch| |] eqn:Hsend.
    + apply trySend_Sent in Hsend as (_ & Hopen' & _).
      apply IH. intros c Hc. destruct (decide (client = c)) as [<-|Hne].
      * by rewrite send_insert_eq.
      * rewrite send_insert_ne by done. by apply Hrest.
    + discriminate.
    + exfalso. eapply trySend_open; [|exact Hsend].
      apply Hopen. by apply list_elem_of_here.
Qed.

Lemma broadcastMessage_frame (h h' : Hub) (msg : BroadcastMessage) (order : list Client) :
  hub_of (broadcastMessage h msg order) = Some h' →
    clients h' = clients h
    ∧ WSConnectionsActive h' = WSConnectionsActive h
    ∧ maxClientsPerSession h' = maxClientsPerSession h
    ∧ (∀ c, closed (send h' c) = closed (send h c))
    ∧ (∀ c, c ∉ order → sends h' !! c = sends h !! c)
    ∧ (∀ c, Exclude msg = Some c → sends h' !! c = sends h !! c).
Proof.
  unfold broadcastMessage. destruct (clients h !! SessionID msg).
  - apply deliver_frame.
  - intros [= <-]. repeat split; reflexivity.
Qed.

Lemma sessionClients_elem (h : Hub) (sid : string) (c : Client) :
  c ∈ sessionClients h sid ↔ ∃ set, clients h !! sid = Some set ∧ c ∈ set.
Proof.
  unfold sessionClients. destruct (clients h !! sid) as [set|].
  - change (default ∅ (Some set)) with set. split; [eauto|].
    intros (set' & [= <-] & H). exact H.
  - change (default ∅ None) with (∅ : gset Client). split; [set_solver|].
    intros (set' & H & _). discriminate.
Qed.

Lemma sessionClients_Some (h : Hub) (sid : string) (set : gset Client) :
  clients h !! sid = Some set → sessionClients h sid = set.
Proof. unfold sessionClients. by intros ->. Qed.

Lemma registered_snoc (evs : list event) (ev : event) :
  registered (evs ++ [ev]) = registered evs ++ registered [ev].
Proof. unfold registered. apply omap_app. Qed.

Lemma Run_cases (h : Hub) (ev : event) (o : outcome) :
  Run h ev o →
  match ev with
  | Register c => registerClient h c = o
  | Unregister c => unregisterClient h c = o
  | Broadcast msg =>
      ∃ order, order ≡ₚ elements (sessionClients h (SessionID msg))
               ∧ broadcastMessage h msg order = o
  end.
Proof. destruct 1; eauto. Qed.

(** Every step of the loop that returns keeps [hub_inv]. *)
Lemma Run_inv (regs : list Client) (h h' : Hub) (ev : event) :
  hub_inv regs h → Run h ev (Done h') → hub_inv (regs ++ registered [ev]) h'.
Proof.
  intros [Hmax Hsize Hmem Hfresh] HR. apply Run_cases in HR.
  destruct ev as [c|c|msg]; [| |destruct HR as (order & Hperm & Heq)];
    [rename HR into Heq..|].
  - (* register *)
    change (registered [Register c]) with [c].
    destruct (registerClient_cases h c Hmax) as [[Hfull Hreg]|[Hroom Hreg]];
      rewrite Hreg in Heq.
    + destruct (close (send h c)) as [ch|]; [|discriminate].
      injection Heq as <-. split; cbn [clients sends maxClientsPerSession]; auto.
      * intros sid set c' Hs Hin. destruct (Hmem _ _ _ Hs Hin). split; [done|].
        apply elem_of_app. by left.
      * intros c' Hc'. apply not_elem_of_app in Hc' as [Hc' Hne].
        rewrite lookup_insert_ne; [by apply Hfresh|].
        intros ->. apply Hne. apply list_elem_of_here.
    + injection Heq as <-. split; cbn [clients sends maxClientsPerSession]; auto.
      * intros sid set Hs. destruct (decide (sid = sessionID c)) as [->|Hne].
        -- rewrite lookup_insert_eq in Hs. injection Hs as <-.
           pose proof (size_add_le c (sessionClients h (sessionID c))). lia.
        -- rewrite lookup_insert_ne in Hs by done. by eapply Hsize.
      * intros sid set c' Hs Hin. destruct (decide (sid = sessionID c)) as [->|Hne].
        -- rewrite lookup_insert_eq in Hs. injection Hs as <-.
           apply elem_of_union in Hin as [Hin|Hin].
           ++ apply elem_of_singleton in Hin as ->. split; [done|].
              apply elem_of_app. right. apply list_elem_of_here.
           ++ apply sessionClients_elem in Hin as (set & Hs & Hin).
              destruct (Hmem _ _ _ Hs Hin). split; [done|].
              apply elem_of_app. by left.
        -- rewrite lookup_insert_ne in Hs by done.
           destruct (Hmem _ _ _ Hs Hin). split; [done|].
           apply elem_of_app. by left.
      * intros c' Hc'. apply not_elem_of_app in Hc' as [Hc' _]. by apply Hfresh.
  - (* unregister *)
    change (registered [Unregister c]) with (@nil Client). rewrite app_nil_r.
    destruct (unregisterClient_cases h c) as [[Hin Hun]|[Hout Hun]];
      rewrite Hun in Heq.
    + destruct (close (send h c)) as [ch|]; [|discriminate].
      injection Heq as <-.
      pose proof Hin as Hin'.
      apply sessionClients_elem in Hin' as (set & Hs & Hin').
      rewrite (sessionClients_Some _ _ _ Hs).
      split; cbn [clients sends maxClientsPerSession]; auto.
      * intros sid set' Hs'.
        destruct (lookup_after_unregister _ _ _ _ _ _ Hs Hs') as [[-> ->]|[Hne Hs'']].
        -- etransitivity; [|by eapply Hsize].
           apply subseteq_size, subseteq_difference_l. reflexivity.
        -- by eapply Hsize.
      * intros sid set' c' Hs' Hc'.
        destruct (lookup_after_unregister _ _ _ _ _ _ Hs Hs') as [[-> ->]|[Hne Hs'']].
        -- apply elem_of_difference in Hc' as [Hc' _]. by eapply Hmem.
        -- by eapply Hmem.
      * intros c' Hc'. rewrite lookup_insert_ne; [by apply Hfresh|].
        intros ->. apply Hc'. by eapply Hmem.
    + injection Heq as <-. by split.
  - (* broadcast *)
    change (registered [Broadcast msg]) with (@nil Client). rewrite app_nil_r.
    assert (Hh : hub_of (broadcastMessage h msg order) = Some h')
      by (by rewrite Heq).
    destruct (broadcastMessage_frame _ _ _ _ Hh) as (Hc & _ & Hm & _ & Hs & _).
    split.
    + congruence.
    + rewrite Hc. exact Hsize.
    + rewrite Hc. exact Hmem.
    + intros c Hc'. rewrite Hs; [by apply Hfresh|].
      intros Hin. apply Hc'. rewrite Hperm in Hin.
      apply elem_of_elements, sessionClients_elem in Hin as (set & Hset & Hin).
      by eapply Hmem.
Qed.

Lemma NewHub_inv : hub_inv [] NewHub.
Proof. split; cbn; try done; intros *; by rewrite lookup_empty. Qed.

Lemma reaches_inv (evs : list event) (h : Hub) :
  reaches evs h → hub_inv (registered evs) h.
Proof.
  induction 1 as [|evs h ev h' _ IH HR].
  - apply NewHub_inv.
  - rewrite registered_snoc. by eapply Run_inv.
Qed.

(** With each client registered at most once, the clients in the sets keep
    open send queues. *)
Lemma Run_open (regs : list Client) (h h' : Hub) (ev : event) :
  hub_inv regs h → members_open h →
  (∀ c, ev = Register c → c ∉ regs) →
  Run h ev (Done h') → members_open h'.
Proof.
  intros [Hmax Hsize Hmem Hfresh] Hopen Hnew HR. apply Run_cases in HR.
  destruct ev as [c|c|msg]; [| |destruct HR as (order & Hperm & Heq)];
    [rename HR into Heq..|].
  - (* register *)
    assert (Hc : c ∉ regs) by (by apply Hnew).
    destruct (registerClient_cases h c Hmax) as [[Hfull Hreg]|[Hroom Hreg]];
      rewrite Hreg in Heq.
    + destruct (close (send h c)) as [ch|]; [|discriminate].
      injection Heq as <-. intros sid set c' Hs Hin. cbn [clients] in Hs.
      rewrite send_insert_ne; [by eapply Hopen|].
      intros <-. apply Hc. by eapply Hmem.
    + injection Heq as <-. intros sid set c' Hs Hin. cbn [clients] in Hs.
      unfold send. cbn [sends]. fold (send h c').
      destruct (decide (sid = sessionID c)) as [->|Hne].
      * rewrite lookup_insert_eq in Hs. injection Hs as <-.
        apply elem_of_union in Hin as [Hin|Hin].
        -- apply elem_of_singleton in Hin as ->.
           unfold send. by rewrite (Hfresh c Hc).
        -- apply sessionClients_elem in Hin as (set & Hs & Hin). by eapply Hopen.
      * rewrite lookup_insert_ne in Hs by done. by eapply Hopen.
  - (* unregister *)
    destruct (unregisterClient_cases h c) as [[Hin Hun]|[Hout Hun]];
      rewrite Hun in Heq.
    + destruct (close (send h c)) as [ch|]; [|discriminate].
      injection Heq as <-.
      pose proof Hin as Hin'.
      apply sessionClients_elem in Hin' as (set & Hs & Hin').
      rewrite (sessionClients_Some _ _ _ Hs).
      intros sid set' c' Hs' Hc'. cbn [clients] in Hs'.
      assert (Hne : c ≠ c').
      { intros <-.
        destruct (lookup_after_unregister _ _ _ _ _ _ Hs Hs') as [[-> ->]|[Hne Hs'']].
        - apply elem_of_difference in Hc' as [_ Hc']. apply Hc'. by apply elem_of_singleton.
        - apply Hne. symmetry. by eapply Hmem. }
      rewrite send_insert_ne by done.
      destruct (lookup_after_unregister _ _ _ _ _ _ Hs Hs') as [[-> ->]|[_ Hs'']].
      * apply elem_of_difference in Hc' as [Hc' _]. by eapply Hopen.
      * by eapply Hopen.
    + by injection Heq as <-.
  - (* broadcast *)
    assert (Hh : hub_of (broadcastMessage h msg order) = Some h') by (by rewrite Heq).
    destruct (broadcastMessage_frame _ _ _ _ Hh) as (Hc & _ & _ & Hcl & _ & _).
    intros sid set c Hs Hin. rewrite Hcl. rewrite Hc in Hs. by eapply Hopen.
Qed.

(** A client never registered has the queue [NewClient] gave it. *)
Lemma fresh_send (regs : list Client) (h : Hub) (c : Client) :
  hub_inv regs h → c ∉ regs → send h c = newChan.
Proof. intros Hinv Hc. unfold send. by rewrite (inv_fresh _ _ Hinv c Hc). Qed.

(** With each client registered at most once, no step of the loop panics:
    no closed queue is closed again or sent to. *)
Lemma Run_no_panic (regs : list Client) (h : Hub) (ev : event) (o : outcome) :
  hub_inv regs h → members_open h →
  (∀ c, ev = Register c → c ∉ regs) →
  Run h ev o → ∀ reason, o ≠ Panic reason.
Proof.
  intros Hinv Hopen Hnew HR reason. apply Run_cases in HR.
  destruct ev as [c|c|msg]; [| |destruct HR as (order & Hperm & Heq)];
    [rename HR into Heq..|]; subst o.
  - destruct (registerClient_cases h c (inv_max _ _ Hinv)) as [[_ ->]|[_ ->]];
      [|discriminate].
    rewrite (fresh_send regs) by auto. discriminate.
  - destruct (unregisterClient_cases h c) as [[Hin ->]|[_ ->]]; [|discriminate].
    apply sessionClients_elem in Hin as (set & Hs & Hin).
    rewrite close_open by (by eapply Hopen). discriminate.
  - unfold broadcastMessage.
    destruct (clients h !! SessionID msg) as [set|] eqn:Hs; [|discriminate].
    apply deliver_no_panic. intros c Hc. rewrite Hperm in Hc.
    apply elem_of_elements, sessionClients_elem in Hc as (set' & Hs' & Hin).
    by eapply Hopen.
Qed.

Lemma NewHub_open : members_open NewHub.
Proof. intros sid set c Hs. cbn in Hs. by rewrite lookup_empty in Hs. Qed.

Lemma reaches_open (evs : list event) (h : Hub) :
  reaches evs h → NoDup (registered evs) → members_open h.
Proof.
  induction 1 as [|evs h ev h' Hr IH HR]; intros Hnd.
  - apply NewHub_open.
  - rewrite registered_snoc in Hnd. apply NoDup_app in Hnd as (Hnd & Hdisj & _).
    eapply Run_open; [by apply reaches_inv|by apply IH| |exact HR].
    intros c -> Hc. apply (Hdisj c Hc). apply list_elem_of_here.
Qed.

(** Which steps close a queue: [unregisterClient] for a member of its
    session's set, and [registerClient] at the cap. *)
Lemma Run_closes (h h' : Hub) (ev : event) (o : outcome) (c : Client) :
  maxClientsPerSession h = 10 →
  Run h ev o → hub_of o = Some h' →
  closed (send h c) = false → closed (send h' c) = true →
  (ev = Unregister c ∧ c ∈ sessionClients h (sessionID c)
   ∧ c ∉ sessionClients h' (sessionID c))
  ∨ (ev = Register c ∧ (10 ≤ size (sessionClients h (sessionID c)))%nat
     ∧ clients h' = clients h).
Proof.
  intros Hmax HR Ho Hbefore Hafter. apply Run_cases in HR.
  destruct ev as [c0|c0|msg]; [| |destruct HR as (order & Hperm & Heq)];
    [rename HR into Heq..|]; subst o.
  - destruct (registerClient_cases h c0 Hmax) as [[Hfull Hreg]|[Hroom Hreg]];
      rewrite Hreg in Ho.
    + destruct (close (send h c0)) as [ch|]; [|discriminate].
      injection Ho as <-. destruct (decide (c0 = c)) as [->|Hne].
      * right. auto.
      * rewrite send_insert_ne in Hafter by done. congruence.
    + injection Ho as <-. unfold send in *. cbn [sends] in Hafter. congruence.
  - destruct (unregisterClient_cases h c0) as [[Hin Hun]|[Hout Hun]];
      rewrite Hun in Ho.
    + destruct (close (send h c0)) as [ch|]; [|discriminate].
      injection Ho as <-. destruct (decide (c0 = c)) as [->|Hne].
      * left. split; [done|]. split; [done|].
        unfold sessionClients at 1. cbn [clients].
        destruct (size (sessionClients h (sessionID c) ∖ {[c]}) =? 0)%nat.
        -- rewrite lookup_delete_eq. apply not_elem_of_empty.
        -- rewrite lookup_insert_eq.
           change (c ∉ sessionClients h (sessionID c) ∖ {[c]}).
           intros [_ Hc]%elem_of_difference. apply Hc. by apply elem_of_singleton.
      * rewrite send_insert_ne in Hafter by done. congruence.
    + injection Ho as <-. congruence.
  - destruct (broadcastMessage_frame _ _ _ _ Ho) as (_ & _ & _ & Hcl & _ & _).
    rewrite Hcl in Hafter. congruence.
Qed.

(** A closed queue stays closed. *)
Lemma Run_stays_closed (h h' : Hub) (ev : event) (o : outcome) (c : Client) :
  Run h ev o → hub_of o = Some h' →
  closed (send h c) = true → closed (send h' c) = true.
Proof.
  intros HR Ho Hbefore. apply Run_cases in HR.
  destruct ev as [c0|c0|msg]; [| |destruct HR as (order & Hperm & Heq)];
    [rename HR into Heq..|]; subst o.
  - unfold registerClient in Ho.
    destruct (maxClientsPerSession h <=? _).
    + destruct (close (send h c0)) as [ch|] eqn:Hcl; [|discriminate].
      injection Ho as <-. apply close_Some in Hcl as (_ & Hch & _).
      destruct (decide (c0 = c)) as [->|Hne].
      * by rewrite send_insert_eq.
      * by rewrite send_insert_ne.
    + injection Ho as <-. exact Hbefore.
  - destruct (unregisterClient_cases h c0) as [[Hin Hun]|[Hout Hun]];
      rewrite Hun in Ho.
    + destruct (close (send h c0)) as [ch|] eqn:Hcl; [|discriminate].
      injection Ho as <-. apply close_Some in Hcl as (_ & Hch & _).
      destruct (decide (c0 = c)) as [->|Hne].
      * by rewrite send_insert_eq.
      * by rewrite send_insert_ne.
    + by injection Ho as <-.
  - destruct (broadcastMessage_frame _ _ _ _ Ho) as (_ & _ & _ & Hcl & _ & _).
    by rewrite Hcl.
Qed.

(** [run] follows the loop. *)
Lemma run_app (evs1 evs2 : list event) :
  ∀ h, run (evs1 ++ evs2) h =
       match run evs1 h with Done h' => run evs2 h' | o => o end.
Proof.
  induction evs1 as [|ev evs1 IH]; intros h; [reflexivity|].
  cbn [run app].
  destruct ev as [c|c|msg];
    match goal with |- context [match ?o with Done _ => _ | _ => _ end] =>
      destruct o; auto end.
Qed.

Lemma run_reaches (evs : list event) :
  ∀ h, run evs NewHub = Done h → reaches evs h.
Proof.
  induction evs as [|ev evs IH] using rev_ind; intros h.
  - intros [= <-]. constructor.
  - rewrite run_app. destruct (run evs NewHub) as [h0| |]; try discriminate.
    intros Hstep. eapply reaches_step; [by apply IH|].
    cbn [run] in Hstep. destruct ev as [c|c|msg].
    + destruct (registerClient h0 c) eqn:E; try discriminate.
      rewrite <- Hstep, <- E. constructor.
    + destruct (unregisterClient h0 c) eqn:E; try discriminate.
      rewrite <- Hstep, <- E. constructor.
    + destruct (broadcastMessage h0 msg _) eqn:E; try discriminate.
      rewrite <- Hstep, <- E. by constructor.
Qed.

End Hub.

(** C7. In every hub state the loop reaches from the new hub no session
    holds more than 10 clients; and when a client whose send queue is open
    registers to a session that holds 10, the step returns with that queue
    closed and with the client sets and the gauge as they were. *)
Theorem hub_session_cap (evs : list websocket.event) (h : websocket.Hub) :
  websocket.reaches evs h →
  (∀ sid, (size (websocket.sessionClients h sid) ≤ 10)%nat)
  ∧ (∀ c,
       websocket.closed (websocket.send h c) = false →
       size (websocket.sessionClients h (websocket.sessionID c)) = 10%nat →
       ∃ h', websocket.registerClient h c = websocket.Done h'
         ∧ websocket.closed (websocket.send h' c) = true
         ∧ websocket.clients h' = websocket.clients h
         ∧ websocket.WSConnectionsActive h' = websocket.WSConnectionsActive h
         ∧ (∀ sid, websocket.sessionClients h' sid = websocket.sessionClients h sid)
         ∧ (∀ sid, websocket.gauge h' sid = websocket.gauge h sid)).
Proof.
  intros Hr. pose proof (reaches_inv _ _ Hr) as Hinv. split.
  - intros sid. unfold websocket.sessionClients.
    destruct (websocket.clients h !! sid) as [set|] eqn:E.
    + exact (websocket.inv_size _ _ Hinv sid set E).
    + change (default ∅ None) with (∅ : gset websocket.Client).
      rewrite size_empty. lia.
  - intros c Hopen Hfull.
    destruct (registerClient_cases h c (websocket.inv_max _ _ Hinv))
      as [[_ Hreg]|[Hroom _]]; [|lia].
    rewrite Hreg, (close_open _ Hopen). eexists. split; [reflexivity|].
    split; [by rewrite send_insert_eq|]. repeat split.
Qed.

Lemma hub_session_cap_witness :
  (size (websocket.sessionClients (sample.hubAfter (sample.registers 10)) "cap") ≤ 10)%nat
  ∧ ∃ h', websocket.registerClient (sample.hubAfter (sample.registers 10)) (sample.client 11)
          = websocket.Done h'
      ∧ websocket.closed (websocket.send h' (sample.client 11)) = true
      ∧ websocket.clients h' = websocket.clients (sample.hubAfter (sample.registers 10))
      ∧ websocket.WSConnectionsActive h'
        = websocket.WSConnectionsActive (sample.hubAfter (sample.registers 10))
      ∧ (∀ sid, websocket.sessionClients h' sid
                = websocket.sessionClients (sample.hubAfter (sample.registers 10)) sid)
      ∧ (∀ sid, websocket.gauge h' sid
                = websocket.gauge (sample.hubAfter (sample.registers 10)) sid).
Proof.
  assert (Hr : websocket.reaches (sample.registers 10) (sample.hubAfter (sample.registers 10))).
  { apply run_reaches. vm_compute. reflexivity. }
  split.
  - apply (proj1 (hub_session_cap _ _ Hr)).
  - apply (proj2 (hub_session_cap _ _ Hr)); vm_compute; reflexivity.
Defined.

(** C8, as stated, fails. After ten clients have registered to a session,
    the eleventh register closes the eleventh client's queue although no
    unregister has run; and registering that client once more attempts a
    second close of the same queue, which panics. *)
Lemma register_at_cap_closes_queue :
  websocket.reaches (sample.registers 10) (sample.hubAfter (sample.registers 10))
  ∧ websocket.closed
      (websocket.send (sample.hubAfter (sample.registers 10)) (sample.client 11)) = false
  ∧ websocket.Run (sample.hubAfter (sample.registers 10))
      (websocket.Register (sample.client 11))
      (websocket.Done (sample.hubAfter (sample.registers 11)))
  ∧ websocket.closed
      (websocket.send (sample.hubAfter (sample.registers 11)) (sample.client 11)) = true
  ∧ websocket.registerClient (sample.hubAfter (sample.registers 11)) (sample.client 11)
    = websocket.Panic "close of closed channel".
Proof.
  split; [apply run_reaches; vm_compute; reflexivity|].
  split; [vm_compute; reflexivity|].
  split.
  - replace (websocket.Done (sample.hubAfter (sample.registers 11)))
      with (websocket.registerClient (sample.hubAfter (sample.registers 10))
              (sample.client 11)) by (vm_compute; reflexivity).
    constructor.
  - split; vm_compute; reflexivity.
Qed.

(** C8, amended. Along every sequence of hub events that registers each
    client at most once, no step panics, so no closed send queue is closed
    again or written to; a closed queue stays closed; and a step that closes
    the queue of a client is either the unregister of that client, which was
    in its session's set and has left it, or the register of that client to
    a session at the cap, which leaves the sets as they were and the client
    outside them. *)
Theorem hub_close_paths (evs : list websocket.event) (h : websocket.Hub)
    (ev : websocket.event) (o : websocket.outcome) :
  websocket.reaches evs h →
  NoDup (websocket.registered (evs ++ [ev])) →
  websocket.Run h ev o →
  (∀ reason, o ≠ websocket.Panic reason)
  ∧ ∀ h' c, websocket.hub_of o = Some h' →
      (websocket.closed (websocket.send h c) = true →
       websocket.closed (websocket.send h' c) = true)
      ∧ (websocket.closed (websocket.send h c) = false →
         websocket.closed (websocket.send h' c) = true →
         (ev = websocket.Unregister c
          ∧ c ∈ websocket.sessionClients h (websocket.sessionID c)
          ∧ c ∉ websocket.sessionClients h' (websocket.sessionID c))
         ∨ (ev = websocket.Register c
            ∧ (10 ≤ size (websocket.sessionClients h (websocket.sessionID c)))%nat
            ∧ websocket.clients h' = websocket.clients h
            ∧ c ∉ websocket.sessionClients h' (websocket.sessionID c))).
Proof.
  intros Hr Hnd HR.
  pose proof (reaches_inv _ _ Hr) as Hinv.
  rewrite registered_snoc in Hnd. apply NoDup_app in Hnd as (Hnd & Hdisj & _).
  pose proof (reaches_open _ _ Hr Hnd) as Hopen.
  assert (Hnew : ∀ c, ev = websocket.Register c → c ∉ websocket.registered evs).
  { intros c -> Hc. apply (Hdisj c Hc). apply list_elem_of_here. }
  split; [by eapply Run_no_panic|].
  intros h' c Ho. split; [by eapply Run_stays_closed|].
  intros Hbefore Hafter.
  destruct (Run_closes h h' ev o c (websocket.inv_max _ _ Hinv) HR Ho Hbefore Hafter)
    as [Hun|(-> & Hfull & Hcl)]; [by left|right].
  repeat split; auto.
  intros (set & Hs & Hin)%sessionClients_elem. rewrite Hcl in Hs.
  apply (Hnew c eq_refl). by eapply (websocket.inv_member _ _ Hinv).
Qed.

Lemma hub_close_paths_witness :
  (∀ reason,
     websocket.registerClient (sample.hubAfter (sample.registers 10)) (sample.client 11)
     ≠ websocket.Panic reason)
  ∧ ∀ h' c,
      websocket.hub_of
        (websocket.registerClient (sample.hubAfter (sample.registers 10)) (sample.client 11))
      = Some h' →
      (websocket.closed (websocket.send (sample.hubAfter (sample.registers 10)) c) = true →
       websocket.closed (websocket.send h' c) = true)
      ∧ (websocket.closed (websocket.send (sample.hubAfter (sample.registers 10)) c) = false →
         websocket.closed (websocket.send h' c) = true →
         (websocket.Register (sample.client 11) = websocket.Unregister c
          ∧ c ∈ websocket.sessionClients (sample.hubAfter (sample.registers 10))
                  (websocket.sessionID c)
          ∧ c ∉ websocket.sessionClients h' (websocket.sessionID c))
         ∨ (websocket.Register (sample.client 11) = websocket.Register c
            ∧ (10 ≤ size (websocket.sessionClients (sample.hubAfter (sample.registers 10))
                            (websocket.sessionID c)))%nat
            ∧ websocket.clients h'
              = websocket.clients (sample.hubAfter (sample.registers 10))
            ∧ c ∉ websocket.sessionClients h' (websocket.sessionID c))).
Proof.
  apply (hub_close_paths (sample.registers 10) (sample.hubAfter (sample.registers 10))
           (websocket.Register (sample.client 11))).
  - apply run_reaches. vm_compute. reflexivity.
  - apply (bool_decide_unpack _). vm_compute. reflexivity.
  - constructor.
Defined.

(** C9. A broadcast whose [Exclude] is client [c] leaves [c]'s send queue
    exactly as it was, in whatever order the session's clients are visited
    and however the loop ends; and the broadcast [handleDataUpdate] hands to
    the hub for an update received from [c] has [Exclude] set to [c], so it
    is never put on [c]'s own queue. *)
Theorem broadcast_skips_excluded :
  (∀ (h h' : websocket.Hub) (msg : websocket.BroadcastMessage)
     (order : list websocket.Client) (c : websocket.Client),
     websocket.Exclude msg = Some c →
     websocket.hub_of (websocket.broadcastMessage h msg order) = Some h' →
     websocket.send h' c = websocket.send h c)
  ∧ (∀ (process : websocket.WSMessage → option errors.APIError)
       (marshal : websocket.WSMessage → list byte)
       (c : websocket.Client) (update : websocket.WSMessage)
       (msg : websocket.BroadcastMessage),
       websocket.handleDataUpdate process marshal c update = websocket.ToHub msg →
       websocket.Exclude msg = Some c
       ∧ websocket.SessionID msg = websocket.sessionID c
       ∧ websocket.Message msg = marshal update
       ∧ ∀ (h h' : websocket.Hub) (order : list websocket.Client),
           websocket.hub_of (websocket.broadcastMessage h msg order) = Some h' →
           websocket.send h' c = websocket.send h c).
Proof.
  assert (Hskip : ∀ h h' msg order c,
            websocket.Exclude msg = Some c →
            websocket.hub_of (websocket.broadcastMessage h msg order) = Some h' →
            websocket.send h' c = websocket.send h c).
  { intros h h' msg order c Hex Ho.
    destruct (broadcastMessage_frame _ _ _ _ Ho) as (_ & _ & _ & _ & _ & He).
    unfold websocket.send. by rewrite (He c Hex). }
  split; [exact Hskip|].
  intros process marshal c update msg. unfold websocket.handleDataUpdate.
  destruct (process update); [discriminate|]. intros [= <-].
  repeat split. intros h h' order. by apply Hskip.
Qed.

Lemma broadcast_skips_excluded_witness :
  websocket.send
    (sample.hubAfter (sample.twoClients ++ [websocket.Broadcast sample.fromA]))
    sample.clientA
  = websocket.send (sample.hubAfter sample.twoClients) sample.clientA
  ∧ websocket.buf
      (websocket.send
         (sample.hubAfter (sample.twoClients ++ [websocket.Broadcast sample.fromA]))
         sample.clientB)
    = [sample.frame].
Proof.
  split; [|vm_compute; reflexivity].
  apply (proj1 broadcast_skips_excluded _ _ sample.fromA
           (elements (websocket.sessionClients (sample.hubAfter sample.twoClients) "s2"))).
  - reflexivity.
  - vm_compute. reflexivity.
Defined.

(** * Further properties of the code *)

(** ** The dedup cache *)

Lemma processMeshForStorage_cache (r : spatial.Repository) (m : Mesh.t) :
  spatial.meshHashCache (snd (spatial.processMeshForStorage r m)) = spatial.meshHashCache r
  ∨ (Mesh.IsDelta m = false
     ∧ spatial.meshHashCache r !! spatial.computeMeshHash m = None
     ∧ spatial.meshHashCache (snd (spatial.processMeshForStorage r m))
       = <[spatial.computeMeshHash m := Mesh.ID m]> (spatial.meshHashCache r)).
Proof.
  unfold spatial.processMeshForStorage.
  destruct (Mesh.IsDelta m).
  - left. destruct (String.eqb (Mesh.BaseMeshID m) ""); reflexivity.
  - destruct (spatial.meshHashCache r !! spatial.computeMeshHash m) eqn:E.
    + left. reflexivity.
    + right. auto.
Qed.

Lemma processMeshForStorage_lookup (r : spatial.Repository) (m : Mesh.t) (h id : string) :
  spatial.meshHashCache r !! h = Some id →
  spatial.meshHashCache (snd (spatial.processMeshForStorage r m)) !! h = Some id.
Proof.
  intros H. unfold spatial.processMeshForStorage.
  destruct (Mesh.IsDelta m); [by destruct (String.eqb (Mesh.BaseMeshID m) "")|].
  destruct (spatial.meshHashCache r !! spatial.computeMeshHash m) eqn:E; [done|].
  cbn [snd spatial.meshHashCache spatial.with_cache].
  rewrite lookup_insert_ne; [done|]. intros <-. congruence.
Qed.

(** X1. An entry of the dedup cache is never overwritten: whatever mesh is
    processed next, a hash that had a canonical id keeps it. *)
Theorem meshHashCache_entry_stable (r : spatial.Repository) (m : Mesh.t) (h id : string) :
  spatial.meshHashCache r !! h = Some id →
  spatial.meshHashCache (snd (spatial.processMeshForStorage r m)) !! h = Some id.
Proof.
  intros H. destruct (processMeshForStorage_cache r m) as [->|(_ & Hmiss & ->)]; [done|].
  rewrite lookup_insert_ne; [done|]. intros <-. congruence.
Qed.

Lemma meshHashCache_entry_stable_witness :
  spatial.meshHashCache
    (snd (spatial.processMeshForStorage
            (snd (spatial.processMeshForStorage spatial.NewRepository sample.mesh1))
            sample.meshA))
  !! spatial.computeMeshHash sample.mesh1 = Some "mesh1".
Proof.
  apply (meshHashCache_entry_stable _ sample.meshA).
  rewrite (processMeshForStorage_miss spatial.NewRepository sample.mesh1 eq_refl eq_refl).
  apply lookup_insert_eq.
Defined.

Lemma laterRepository_stable (r r' : spatial.Repository) (h id : string) :
  laterRepository r r' →
  spatial.meshHashCache r !! h = Some id → spatial.meshHashCache r' !! h = Some id.
Proof.
  induction 1 as [|r r1 r2 (m & ->) _ IH]; [done|].
  intros H. apply IH. by apply processMeshForStorage_lookup.
Qed.

Lemma processMeshForStorage_full (r r' : spatial.Repository) (m m' : Mesh.t) (saved : Z) :
  Mesh.IsDelta m = false →
  spatial.processMeshForStorage r m = (Ok (m', saved), r') →
  Mesh.Hash m' = spatial.computeMeshHash m
  ∧ spatial.meshHashCache r' !! Mesh.Hash m' = Some (Mesh.ID m')
  ∧ Mesh.Vertices m' = Mesh.Vertices m ∧ Mesh.Faces m' = Mesh.Faces m
  ∧ Mesh.Normals m' = Mesh.Normals m.
Proof.
  intros Hd.
  destruct (spatial.meshHashCache r !! spatial.computeMeshHash m) as [id|] eqn:Hc.
  - rewrite (processMeshForStorage_hit r m id Hd Hc). by intros [= <- <- <-].
  - rewrite (processMeshForStorage_miss r m Hd Hc). intros [= <- <- <-].
    cbn [Mesh.Hash Mesh.ID Mesh.Vertices Mesh.Faces Mesh.Normals Mesh.with_ID Mesh.with_Hash
         spatial.meshHashCache spatial.with_cache].
    by rewrite lookup_insert_eq.
Qed.

(** X2. A full mesh that is accepted comes back with its own geometry, its
    hash attached, and the id the cache now holds for that hash; the bytes
    saved are 0 when the id is its own and the size of the geometry when the
    id was taken from the cache. *)
Theorem processed_id_is_canonical (r r' : spatial.Repository) (m m' : Mesh.t) (saved : Z) :
  Mesh.IsDelta m = false →
  spatial.processMeshForStorage r m = (Ok (m', saved), r') →
  Mesh.Hash m' = spatial.computeMeshHash m
  ∧ spatial.meshHashCache r' !! Mesh.Hash m' = Some (Mesh.ID m')
  ∧ Mesh.Vertices m' = Mesh.Vertices m ∧ Mesh.Faces m' = Mesh.Faces m
  ∧ Mesh.Normals m' = Mesh.Normals m
  ∧ ((spatial.meshHashCache r !! spatial.computeMeshHash m = None
      ∧ Mesh.ID m' = Mesh.ID m ∧ saved = 0)
     ∨ (spatial.meshHashCache r !! spatial.computeMeshHash m = Some (Mesh.ID m')
        ∧ r' = r
        ∧ saved = spatial.len (Mesh.Vertices m) + spatial.len (Mesh.Faces m)
                  + spatial.len (Mesh.Normals m))).
Proof.
  intros Hd.
  destruct (spatial.meshHashCache r !! spatial.computeMeshHash m) as [id|] eqn:Hc.
  - rewrite (processMeshForStorage_hit r m id Hd Hc). intros [= <- <- <-].
    cbn [Mesh.Hash Mesh.ID Mesh.Vertices Mesh.Faces Mesh.Normals Mesh.with_ID Mesh.with_Hash].
    repeat split; auto.
  - rewrite (processMeshForStorage_miss r m Hd Hc). intros [= <- <- <-].
    cbn [Mesh.Hash Mesh.ID Mesh.Vertices Mesh.Faces Mesh.Normals Mesh.with_ID Mesh.with_Hash
         spatial.meshHashCache spatial.with_cache].
    rewrite lookup_insert_eq. repeat split; auto.
Qed.

Lemma processed_id_is_canonical_witness :
  ∃ m' r', spatial.processMeshForStorage spatial.NewRepository sample.meshA = (Ok (m', 0), r')
    ∧ Mesh.Hash m' = spatial.computeMeshHash sample.meshA
    ∧ spatial.meshHashCache r' !! Mesh.Hash m' = Some (Mesh.ID m').
Proof.
  eexists _, _. split.
  - exact (processMeshForStorage_miss spatial.NewRepository sample.meshA eq_refl eq_refl).
  - pose proof (processed_id_is_canonical spatial.NewRepository _ sample.meshA _ 0 eq_refl
                  (processMeshForStorage_miss spatial.NewRepository sample.meshA
                     eq_refl eq_refl)) as (H1 & H2 & _).
    split; [exact H1|exact H2].
Defined.

(** X3. Deduplication converges across a batch: once a full mesh has been
    processed, every later full mesh with the same vertices, faces and
    normals comes back under the id the first one came back with, however
    many other meshes were processed in between. *)
Theorem dedup_across_batch (r r1 r2 r2' : spatial.Repository) (m1 m1' m2 m2' : Mesh.t)
    (s1 s2 : Z) :
  Mesh.IsDelta m1 = false → Mesh.IsDelta m2 = false →
  Mesh.Vertices m1 = Mesh.Vertices m2 →
  Mesh.Faces m1 = Mesh.Faces m2 →
  Mesh.Normals m1 = Mesh.Normals m2 →
  spatial.processMeshForStorage r m1 = (Ok (m1', s1), r1) →
  laterRepository r1 r2 →
  spatial.processMeshForStorage r2 m2 = (Ok (m2', s2), r2') →
  Mesh.ID m2' = Mesh.ID m1' ∧ Mesh.Hash m2' = Mesh.Hash m1' ∧ r2' = r2
  ∧ s2 = spatial.len (Mesh.Vertices m2) + spatial.len (Mesh.Faces m2)
         + spatial.len (Mesh.Normals m2).
Proof.
  intros Hd1 Hd2 Hv Hf Hn H1 Hlater H2.
  destruct (processMeshForStorage_full _ _ _ _ _ Hd1 H1) as (Hh1 & Hc1 & _).
  assert (Hh : spatial.computeMeshHash m2 = spatial.computeMeshHash m1).
  { apply computeMeshHash_ext. by rewrite Hv, Hf, Hn. }
  pose proof (laterRepository_stable _ _ _ _ Hlater Hc1) as Hc2.
  rewrite Hh1, <- Hh in Hc2.
  rewrite (processMeshForStorage_hit r2 m2 _ Hd2 Hc2) in H2.
  injection H2 as <- <- <-.
  cbn [Mesh.Hash Mesh.ID Mesh.with_ID Mesh.with_Hash]. rewrite Hh1, Hh. auto.
Qed.

Lemma dedup_across_batch_witness :
  ∃ m2' s2,
    spatial.processMeshForStorage
      (snd (spatial.processMeshForStorage
              (snd (spatial.processMeshForStorage spatial.NewRepository sample.mesh1))
              sample.meshA))
      sample.mesh2
    = (Ok (m2', s2),
       snd (spatial.processMeshForStorage
              (snd (spatial.processMeshForStorage spatial.NewRepository sample.mesh1))
              sample.meshA))
    ∧ Mesh.ID m2' = "mesh1".
Proof.
  set (R1 := snd (spatial.processMeshForStorage spatial.NewRepository sample.mesh1)).
  set (R2 := snd (spatial.processMeshForStorage R1 sample.meshA)).
  assert (H1 : spatial.processMeshForStorage spatial.NewRepository sample.mesh1
               = (Ok (Mesh.with_Hash (spatial.computeMeshHash sample.mesh1) sample.mesh1, 0),
                  R1)).
  { subst R1.
    by rewrite (processMeshForStorage_miss spatial.NewRepository sample.mesh1 eq_refl eq_refl). }
  assert (Hc : spatial.meshHashCache R2 !! spatial.computeMeshHash sample.mesh2
               = Some "mesh1").
  { subst R2. apply processMeshForStorage_lookup. subst R1.
    rewrite (processMeshForStorage_miss spatial.NewRepository sample.mesh1 eq_refl eq_refl).
    rewrite (computeMeshHash_ext sample.mesh2 sample.mesh1 eq_refl).
    apply lookup_insert_eq. }
  pose proof (processMeshForStorage_hit R2 sample.mesh2 "mesh1" eq_refl Hc) as H2.
  eexists _, _. split; [exact H2|].
  refine (proj1 (dedup_across_batch spatial.NewRepository R1 R2 R2 sample.mesh1 _
                   sample.mesh2 _ 0 _ eq_refl eq_refl eq_refl eq_refl eq_refl H1 _ H2)).
  apply rtc_once. eexists. reflexivity.
Defined.

(** X4. Processing is idempotent on what it returns: a mesh that came back
    from [processMeshForStorage] comes back unchanged when processed again,
    and the cache stays as the first call left it. *)
Theorem processMeshForStorage_idempotent (r r' : spatial.Repository) (m m' : Mesh.t)
    (saved : Z) :
  spatial.processMeshForStorage r m = (Ok (m', saved), r') →
  ∃ saved', spatial.processMeshForStorage r' m' = (Ok (m', saved'), r').
Proof.
  intros H. destruct (Mesh.IsDelta m) eqn:Hd.
  - destruct (decide (Mesh.BaseMeshID m = "")) as [Hb|Hb].
    + rewrite (processMeshForStorage_delta_err r m Hd Hb) in H. discriminate.
    + rewrite (processMeshForStorage_delta_ok r m Hd Hb) in H.
      injection H as <- <- <-. exists 0.
      destruct (0 <? spatial.len (Mesh.DeltaData m)) eqn:Hlen.
      * rewrite processMeshForStorage_delta_ok by done.
        cbn [Mesh.DeltaData Mesh.with_geometry]. rewrite Hlen. reflexivity.
      * rewrite processMeshForStorage_delta_ok by done. rewrite Hlen. reflexivity.
  - destruct (processMeshForStorage_full _ _ _ _ _ Hd H) as (Hh & Hc & Hv & Hf & Hn).
    assert (Hd' : Mesh.IsDelta m' = false).
    { destruct (spatial.meshHashCache r !! spatial.computeMeshHash m) as [id|] eqn:E.
      - rewrite (processMeshForStorage_hit r m id Hd E) in H. by injection H as <- _ _.
      - rewrite (processMeshForStorage_miss r m Hd E) in H. by injection H as <- _ _. }
    assert (Hh' : spatial.computeMeshHash m' = Mesh.Hash m').
    { rewrite Hh. apply computeMeshHash_ext. by rewrite Hv, Hf, Hn. }
    rewrite <- Hh' in Hc.
    rewrite (processMeshForStorage_hit r' m' _ Hd' Hc), Hh'.
    eexists. f_equal. f_equal. f_equal. by destruct m'.
Qed.

Lemma processMeshForStorage_idempotent_witness :
  ∃ saved',
    spatial.processMeshForStorage
      (spatial.with_cache
         (<[spatial.computeMeshHash sample.meshA := Mesh.ID sample.meshA]>
            (spatial.meshHashCache spatial.NewRepository)) spatial.NewRepository)
      (Mesh.with_Hash (spatial.computeMeshHash sample.meshA) sample.meshA)
    = (Ok (Mesh.with_Hash (spatial.computeMeshHash sample.meshA) sample.meshA, saved'),
       spatial.with_cache
         (<[spatial.computeMeshHash sample.meshA := Mesh.ID sample.meshA]>
            (spatial.meshHashCache spatial.NewRepository)) spatial.NewRepository).
Proof.
  apply (processMeshForStorage_idempotent spatial.NewRepository _ sample.meshA _ 0).
  exact (processMeshForStorage_miss spatial.NewRepository sample.meshA eq_refl eq_refl).
Defined.

(** ** Delta resolution *)

Section Resolve.

Context {DB : Type}.
Variable Collection : DB → string → option string.
Variable ReadDocument : DB → string → spatial.readResult.

Let resolve := spatial.resolveDeltaMesh DB Collection ReadDocument.

Lemma relabel_self (m : Mesh.t) : relabel m m = m.
Proof. by destruct m. Qed.

Lemma relabel_relabel (d b root : Mesh.t) : relabel d (relabel b root) = relabel d root.
Proof. reflexivity. Qed.

Lemma resolve_root_step (fuel : nat) (d : DB) (m : Mesh.t) :
  Mesh.IsDelta m = false ∨ Mesh.BaseMeshID m = "" →
  resolve (S fuel) d m = Some (Ok m).
Proof.
  intros H. unfold resolve. cbn [spatial.resolveDeltaMesh].
  destruct H as [-> | ->]; [reflexivity|]. by rewrite orb_true_r.
Qed.

Lemma resolve_delta_step (fuel : nat) (d : DB) (m : Mesh.t) :
  Mesh.IsDelta m = true → Mesh.BaseMeshID m ≠ "" →
  resolve (S fuel) d m =
    match Collection d spatial.MeshesCollection with
    | Some err => Some (Err (errors.DatabaseError ("failed to get collection: " +:+ err)))
    | None =>
        match ReadDocument d (Mesh.BaseMeshID m) with
        | spatial.NotFound err | spatial.ReadFailed err =>
            Some (Err (errors.DatabaseError ("failed to load base mesh: " +:+ err)))
        | spatial.Found b =>
            if Mesh.IsDelta b then
              match resolve fuel d b with
              | None => None
              | Some (Err err) => Some (Err err)
              | Some (Ok rb) => Some (Ok (relabel m rb))
              end
            else Some (Ok (relabel m b))
        end
    end.
Proof.
  intros Hd Hb. unfold resolve. cbn [spatial.resolveDeltaMesh].
  rewrite Hd, (eqb_empty_false _ Hb). reflexivity.
Qed.

Lemma resolve_cases (m : Mesh.t) :
  (Mesh.IsDelta m = false ∨ Mesh.BaseMeshID m = "")
  ∨ (Mesh.IsDelta m = true ∧ Mesh.BaseMeshID m ≠ "").
Proof.
  destruct (Mesh.IsDelta m); [|by left; left].
  destruct (decide (Mesh.BaseMeshID m = "")); [by left; right|by right].
Qed.

(** The resolved mesh is a mesh at the end of the chain of bases, put under
    the delta's id and timestamp. *)
Lemma resolve_relabels_root (fuel : nat) (d : DB) :
  ∀ delta m, resolve fuel d delta = Some (Ok m) →
    ∃ root, (root = delta ∨ ∃ key, ReadDocument d key = spatial.Found root)
      ∧ (Mesh.IsDelta root = false ∨ Mesh.BaseMeshID root = "")
      ∧ m = relabel delta root.
Proof.
  induction fuel as [|fuel IH]; intros delta m; [discriminate|].
  destruct (resolve_cases delta) as [Hroot|[Hd Hb]].
  - rewrite resolve_root_step by done. intros [= <-].
    exists delta. rewrite relabel_self. auto.
  - rewrite resolve_delta_step by done.
    destruct (Collection d spatial.MeshesCollection); [discriminate|].
    destruct (ReadDocument d (Mesh.BaseMeshID delta)) as [b|err|err] eqn:Hr;
      try discriminate.
    destruct (Mesh.IsDelta b) eqn:Hbd.
    + destruct (resolve fuel d b) as [[rb|e]|] eqn:Hrb; try discriminate.
      intros [= <-]. destruct (IH _ _ Hrb) as (root & Hfrom & Hfull & ->).
      exists root. split; [|by rewrite relabel_relabel].
      right. destruct Hfrom as [->|Hfrom]; [by exists (Mesh.BaseMeshID delta)|exact Hfrom].
    + intros [= <-]. exists b. split; [right; by exists (Mesh.BaseMeshID delta)|].
      split; [by left|reflexivity].
Qed.

End Resolve.

(** X5. When [resolveDeltaMesh] succeeds, the result is a mesh that is not
    a delta on a base (the input itself or a stored mesh) carried over
    unchanged but for the id and timestamp, which are the input's: the
    delta's payload is never applied, and the geometry is that of the end of
    the chain. *)
Theorem resolveDeltaMesh_relabels_root {DB : Type}
    (Collection : DB → string → option string)
    (ReadDocument : DB → string → spatial.readResult)
    (fuel : nat) (d : DB) (delta m : Mesh.t) :
  spatial.resolveDeltaMesh DB Collection ReadDocument fuel d delta = Some (Ok m) →
  Mesh.ID m = Mesh.ID delta ∧ Mesh.Timestamp m = Mesh.Timestamp delta
  ∧ ∃ root, (root = delta ∨ ∃ key, ReadDocument d key = spatial.Found root)
      ∧ (Mesh.IsDelta root = false ∨ Mesh.BaseMeshID root = "")
      ∧ m = Mesh.with_Timestamp (Mesh.Timestamp delta) (Mesh.with_ID (Mesh.ID delta) root)
      ∧ Mesh.Vertices m = Mesh.Vertices root ∧ Mesh.Faces m = Mesh.Faces root
      ∧ Mesh.Normals m = Mesh.Normals root.
Proof.
  intros H. destruct (resolve_relabels_root _ _ _ _ _ _ H) as (root & Hfrom & Hfull & ->).
  repeat split. exists root. repeat split; auto.
Qed.

Lemma resolveDeltaMesh_relabels_root_witness :
  spatial.resolveDeltaMesh memdb.DB memdb.Collection memdb.ReadDocument 3
    fixtures.chainDB fixtures.d2
  = Some (Ok (Mesh.with_Timestamp 7 (Mesh.with_ID "d2" sample.mesh1)))
  ∧ Mesh.ID (Mesh.with_Timestamp 7 (Mesh.with_ID "d2" sample.mesh1)) = Mesh.ID fixtures.d2.
Proof.
  assert (H : spatial.resolveDeltaMesh memdb.DB memdb.Collection memdb.ReadDocument 3
                fixtures.chainDB fixtures.d2
              = Some (Ok (Mesh.with_Timestamp 7 (Mesh.with_ID "d2" sample.mesh1))))
    by (vm_compute; reflexivity).
  split; [exact H|].
  exact (proj1 (resolveDeltaMesh_relabels_root _ _ _ _ _ _ H)).
Defined.

(** X6. Every error [resolveDeltaMesh] returns is a database error with
    status 500. *)
Theorem resolveDeltaMesh_errors {DB : Type}
    (Collection : DB → string → option string)
    (ReadDocument : DB → string → spatial.readResult)
    (fuel : nat) (d : DB) (delta : Mesh.t) (e : errors.APIError) :
  spatial.resolveDeltaMesh DB Collection ReadDocument fuel d delta = Some (Err e) →
  errors.StatusCode e = 500 ∧ errors.Code e = "DATABASE_ERROR"
  ∧ Mesh.IsDelta delta = true ∧ Mesh.BaseMeshID delta ≠ "".
Proof.
  revert delta. induction fuel as [|fuel IH]; intros delta; [discriminate|].
  destruct (resolve_cases delta) as [Hroot|[Hd Hb]].
  - rewrite resolve_root_step by done. discriminate.
  - rewrite resolve_delta_step by done.
    destruct (Collection d spatial.MeshesCollection);
      [intros [= <-]; repeat split; auto|].
    destruct (ReadDocument d (Mesh.BaseMeshID delta)) as [b|err|err];
      [|intros [= <-]; repeat split; auto..].
    destruct (Mesh.IsDelta b); [|discriminate].
    destruct (spatial.resolveDeltaMesh DB Collection ReadDocument fuel d b)
      as [[rb|e']|] eqn:Hrb; try discriminate.
    intros [= <-]. destruct (IH _ Hrb) as (Hs & Hc & _). auto.
Qed.

Lemma resolveDeltaMesh_errors_witness :
  errors.StatusCode (errors.DatabaseError "failed to load base mesh: document not found") = 500
  ∧ errors.Code (errors.DatabaseError "failed to load base mesh: document not found")
    = "DATABASE_ERROR"
  ∧ Mesh.IsDelta fixtures.orphan = true ∧ Mesh.BaseMeshID fixtures.orphan ≠ "".
Proof.
  apply (resolveDeltaMesh_errors memdb.Collection memdb.ReadDocument 1
           fixtures.chainDB fixtures.orphan).
  vm_compute. reflexivity.
Defined.

(** X7. Along a chain of [n] bases ending in a mesh that is not a delta on
    a base, [resolveDeltaMesh] returns within depth [n + 1], and the result
    is the end of the chain under the delta's id and timestamp; more depth
    changes nothing. *)
Theorem resolveDeltaMesh_chain {DB : Type}
    (Collection : DB → string → option string)
    (ReadDocument : DB → string → spatial.readResult)
    (d : DB) (n k : nat) (delta root : Mesh.t) :
  baseChain Collection ReadDocument d n delta root →
  spatial.resolveDeltaMesh DB Collection ReadDocument (S n + k) d delta
  = Some (Ok (relabel delta root)).
Proof.
  intros Hchain. revert k.
  induction Hchain as [m Hroot|n m b root Hd Hb Hcol Hread Hchain IH]; intros k.
  - change (S 0 + k)%nat with (S k).
    rewrite (resolve_root_step Collection ReadDocument) by done. by rewrite relabel_self.
  - change (S (S n) + k)%nat with (S (S n + k)).
    rewrite (resolve_delta_step Collection ReadDocument) by done.
    rewrite Hcol, Hread. destruct (Mesh.IsDelta b) eqn:Hbd.
    + by rewrite IH.
    + inversion Hchain; subst; [done|congruence].
Qed.

Lemma resolveDeltaMesh_chain_witness :
  spatial.resolveDeltaMesh memdb.DB memdb.Collection memdb.ReadDocument (S 2 + 4)
    fixtures.chainDB fixtures.d2
  = Some (Ok (relabel fixtures.d2 sample.mesh1)).
Proof.
  apply resolveDeltaMesh_chain.
  eapply baseChain_step; [reflexivity|discriminate|reflexivity|vm_compute; reflexivity|].
  eapply baseChain_step; [reflexivity|discriminate|reflexivity|vm_compute; reflexivity|].
  apply baseChain_root. by left.
Defined.

(** X8. [resolveDeltaMesh] does not return on a cycle of bases: if from a
    mesh on every read leads to another delta on a base, the recursion
    reaches any depth. *)
Theorem resolveDeltaMesh_cycle {DB : Type}
    (Collection : DB → string → option string)
    (ReadDocument : DB → string → spatial.readResult)
    (d : DB) (onCycle : Mesh.t → Prop) (fuel : nat) (delta : Mesh.t) :
  (∀ m, onCycle m →
     Mesh.IsDelta m = true ∧ Mesh.BaseMeshID m ≠ ""
     ∧ Collection d spatial.MeshesCollection = None
     ∧ ∃ b, ReadDocument d (Mesh.BaseMeshID m) = spatial.Found b ∧ onCycle b) →
  onCycle delta →
  spatial.resolveDeltaMesh DB Collection ReadDocument fuel d delta = None.
Proof.
  intros Hcycle. revert delta.
  induction fuel as [|fuel IH]; intros delta Hon; [reflexivity|].
  destruct (Hcycle _ Hon) as (Hd & Hb & Hcol & b & Hread & Hon').
  rewrite (resolve_delta_step Collection ReadDocument) by done.
  rewrite Hcol, Hread.
  destruct (Hcycle _ Hon') as (-> & _). by rewrite (IH _ Hon').
Qed.

Lemma resolveDeltaMesh_cycle_witness :
  spatial.resolveDeltaMesh memdb.DB memdb.Collection memdb.ReadDocument 1000
    fixtures.loopDB fixtures.loop = None.
Proof.
  apply (resolveDeltaMesh_cycle memdb.Collection memdb.ReadDocument fixtures.loopDB
           (λ m, m = fixtures.loop)); [|reflexivity].
  intros m ->. split; [reflexivity|]. split; [discriminate|]. split; [reflexivity|].
  exists fixtures.loop. split; [vm_compute; reflexivity|reflexivity].
Defined.

(** ** Mesh loading *)

Lemma resolveAll_result {DB : Type}
    (Collection : DB → string → option string)
    (ReadDocument : DB → string → spatial.readResult)
    (fuel : nat) (d : DB) (meshes : list Mesh.t) :
  ∀ out, spatial.resolveAll DB Collection ReadDocument fuel d meshes = Some out →
    sublist (map Mesh.ID out) (map Mesh.ID meshes)
    ∧ (∀ m, m ∈ meshes → Mesh.IsDelta m = false → m ∈ out)
    ∧ (∀ m, m ∈ out →
         m ∈ meshes
         ∨ ∃ delta, delta ∈ meshes
             ∧ spatial.resolveDeltaMesh DB Collection ReadDocument fuel d delta = Some (Ok m)).
Proof.
  induction meshes as [|mesh rest IH]; intros out; cbn [spatial.resolveAll].
  - intros [= <-]. split; [constructor|]. split; intros m Hm; by apply elem_of_nil in Hm.
  - destruct (Mesh.IsDelta mesh) eqn:Hd.
    + destruct (spatial.resolveDeltaMesh DB Collection ReadDocument fuel d mesh)
        as [[resolved|e]|] eqn:Hres; [| |discriminate].
      * destruct (spatial.resolveAll DB Collection ReadDocument fuel d rest) as [out'|];
          [|discriminate].
        intros [= <-]. destruct (IH _ eq_refl) as (Hsub & Hfull & Hfrom).
        assert (Hid : Mesh.ID resolved = Mesh.ID mesh).
        { destruct (resolve_relabels_root _ _ _ _ _ _ Hres) as (root & _ & _ & ->).
          reflexivity. }
        split; [|split].
        -- cbn [map]. rewrite Hid. by constructor.
        -- intros m [->|Hm]%elem_of_cons Hm'; [congruence|].
           apply list_elem_of_further. by apply Hfull.
        -- intros m [->|Hm]%elem_of_cons.
           ++ right. exists mesh. split; [apply list_elem_of_here|done].
           ++ destruct (Hfrom _ Hm) as [Hin|(delta & Hin & Hr)].
              ** left. by apply list_elem_of_further.
              ** right. exists delta. split; [by apply list_elem_of_further|done].
      * intros Hrest. destruct (IH _ Hrest) as (Hsub & Hfull & Hfrom).
        split; [|split].
        -- cbn [map]. by constructor.
        -- intros m [->|Hm]%elem_of_cons Hm'; [congruence|]. by apply Hfull.
        -- intros m Hm. destruct (Hfrom _ Hm) as [Hin|(delta & Hin & Hr)].
           ** left. by apply list_elem_of_further.
           ** right. exists delta. split; [by apply list_elem_of_further|done].
    + destruct (spatial.resolveAll DB Collection ReadDocument fuel d rest) as [out'|];
        [|discriminate].
      intros [= <-]. destruct (IH _ eq_refl) as (Hsub & Hfull & Hfrom).
      split; [|split].
      * cbn [map]. by constructor.
      * intros m [->|Hm]%elem_of_cons Hm'; [apply list_elem_of_here|].
        apply list_elem_of_further. by apply Hfull.
      * intros m [->|Hm]%elem_of_cons.
        -- left. apply list_elem_of_here.
        -- destruct (Hfrom _ Hm) as [Hin|(delta & Hin & Hr)].
           ++ left. by apply list_elem_of_further.
           ++ right. exists delta. split; [by apply list_elem_of_further|done].
Qed.



(** ** The ingest endpoint *)

Section IngestFacts.

Context {DB : Type}.
Variable Collection : DB → string → option string.
Variable UpsertAnchor : DB → Anchor.t → string + DB.
Variable ReadDocument : DB → string → spatial.readResult.
Variable CreateDocument : DB → Mesh.t → string + DB.

Let ingestAnchors := spatial.ingestAnchors DB Collection UpsertAnchor.
Let ingestMeshes := spatial.ingestMeshes DB Collection ReadDocument CreateDocument.
Let Ingest := spatial.Ingest DB Collection UpsertAnchor ReadDocument CreateDocument.

Lemma ingestAnchors_wrapped (sid : string) (anchors : list Anchor.t) :
  ∀ st err st', ingestAnchors sid anchors st = (Some err, st') →
                errors.IsAPIError err = None.
Proof.
  induction anchors as [|a rest IH]; intros st err st'; unfold ingestAnchors in *;
    cbn [spatial.ingestAnchors]; [discriminate|].
  destruct (spatial.ingestAnchor DB Collection UpsertAnchor st a) as [[e|] st1].
  - by intros [= <- _].
  - apply IH.
Qed.

Lemma ingestMeshes_wrapped (sid : string) (meshes : list Mesh.t) :
  ∀ st err st', ingestMeshes sid meshes st = (Some err, st') →
                errors.IsAPIError err = None.
Proof.
  induction meshes as [|m rest IH]; intros st err st'; unfold ingestMeshes in *;
    cbn [spatial.ingestMeshes]; [discriminate|].
  destruct (spatial.processMeshForStorage (spatial.repo st) m) as [[[pm saved]|e] repo'].
  - destruct (spatial.ingestMesh DB Collection ReadDocument CreateDocument _ pm)
      as [[e|] st1].
    + by intros [= <- _].
    + apply IH.
  - by intros [= <- _].
Qed.

Lemma Ingest_wrapped (st st' : spatial.State DB) (event : SpatialEvent.t)
    (err : errors.error) :
  Ingest st event = (Some err, st') → errors.IsAPIError err = None.
Proof.
  unfold Ingest, spatial.Ingest.
  destruct (spatial.ingestAnchors DB Collection UpsertAnchor _ _ st) as [[e|] st1] eqn:Ha.
  - intros [= <- _]. by eapply ingestAnchors_wrapped.
  - destruct (spatial.ingestMeshes DB Collection ReadDocument CreateDocument _ _ st1)
      as [[e|] st2] eqn:Hm; [|discriminate].
    intros [= <- _]. by eapply ingestMeshes_wrapped.
Qed.

Lemma ingestMeshes_bad_delta (sid : string) (meshes : list Mesh.t) (bad : Mesh.t) :
  bad ∈ meshes → Mesh.IsDelta bad = true → Mesh.BaseMeshID bad = "" →
  ∀ st, ∃ err st', ingestMeshes sid meshes st = (Some err, st').
Proof.
  intros Hin Hd Hb. induction meshes as [|m rest IH]; intros st;
    [by apply elem_of_nil in Hin|].
  unfold ingestMeshes in *. cbn [spatial.ingestMeshes].
  destruct (spatial.processMeshForStorage (spatial.repo st) m) as [[[pm saved]|e] repo'] eqn:Hp.
  - destruct (spatial.ingestMesh DB Collection ReadDocument CreateDocument _ pm)
      as [[e|] st1]; [by eexists _, _|].
    apply elem_of_cons in Hin as [->|Hin].
    + rewrite (processMeshForStorage_delta_err _ _ Hd Hb) in Hp. discriminate.
    + by apply IH.
  - by eexists _, _.
Qed.

End IngestFacts.




(** ** The query endpoint *)

Lemma with_Limit_same (p : QueryParams.t) : QueryParams.with_Limit (QueryParams.Limit p) p = p.
Proof. by destruct p. Qed.


(** ** The single-anchor endpoint, continued *)

(** X13. For a non-empty id the single-anchor endpoint answers by what the
    store gives for its one query: 500 with code DATABASE_ERROR when the
    query or a read of its cursor fails, 404 when the cursor yields nothing,
    and otherwise 200 with the first document yielded. *)
Theorem GetAnchor_statuses
    (db : string → gmap string spatial.value → spatial.cursor)
    (load : list Anchor.t → result (list Mesh.t)) (id : string) :
  id ≠ "" →
  handlers.GetAnchor db load id =
    match db "FOR doc IN @@collection
SORT doc.timestamp DESC
LIMIT 1
RETURN doc"
             (<["limit" := spatial.VInt 1]>
                {[ "@collection" := spatial.VString "anchors" ]}) with
    | spatial.QueryFailed err =>
        (500, handlers.JSONError ("database error: failed to execute query: " +:+ err)
                (Some "DATABASE_ERROR"))
    | spatial.Cursor _ (Some err) =>
        (500, handlers.JSONError ("database error: failed to read anchor: " +:+ err)
                (Some "DATABASE_ERROR"))
    | spatial.Cursor [] None => (404, handlers.JSONError "Anchor not found" None)
    | spatial.Cursor (a :: _) None => (200, handlers.JSONAnchor a)
    end.
Proof.
  intros Hid. unfold handlers.GetAnchor, spatial.Query.
  rewrite (eqb_empty_false _ Hid), buildQuery_anchorParams.
  destruct (db _ _) as [err|docs [err|]]; by destruct docs || reflexivity.
Qed.

Lemma GetAnchor_statuses_witness :
  handlers.GetAnchor (memstore.Query []) memstore.loadMeshesForAnchors "a"
  = (404, handlers.JSONError "Anchor not found" None).
Proof.
  rewrite (GetAnchor_statuses (memstore.Query []) memstore.loadMeshesForAnchors "a");
    [|discriminate].
  vm_compute. reflexivity.
Defined.

(** ** The session hub, continued *)

Section HubFacts.
Import websocket.

Lemma trySend_Sent_room (ch ch' : Chan) (frame : list byte) :
  trySend ch frame = Sent ch' →
  (length (buf ch) < sendCap)%nat ∧ ch' = {| buf := buf ch ++ [frame]; closed := false |}.
Proof.
  unfold trySend. destruct (closed ch); [discriminate|].
  destruct (length (buf ch) <? sendCap)%nat eqn:E; [|discriminate].
  intros [= <-]. by apply Nat.ltb_lt in E.
Qed.

Lemma trySend_Full (ch : Chan) (frame : list byte) :
  trySend ch frame = Full → closed ch = false ∧ (sendCap ≤ length (buf ch))%nat.
Proof.
  unfold trySend. destruct (closed ch); [discriminate|].
  destruct (length (buf ch) <? sendCap)%nat eqn:E; [discriminate|].
  intros _. by apply Nat.ltb_ge in E.
Qed.

Lemma send_insert (h : Hub) (cl : gmap string (gset Client)) (g : gmap string Z) (m : Z)
    (c c' : Client) (ch : Chan) :
  send {| clients := cl; sends := <[c := ch]> (sends h);
          WSConnectionsActive := g; maxClientsPerSession := m |} c'
  = if decide (c = c') then ch else send h c'.
Proof.
  destruct (decide (c = c')) as [<-|Hne];
    [apply send_insert_eq|by apply send_insert_ne].
Qed.

(** A loop that returns has put the frame once on the queue of every client
    it visited but the excluded one, and each of those queues had room. *)
Lemma deliver_Done (msg : BroadcastMessage) (order : list Client) :
  NoDup order →
  ∀ h h', deliver order msg h = Done h' →
    ∀ c, c ∈ order → Some c ≠ Exclude msg →
      buf (send h' c) = buf (send h c) ++ [Message msg]
      ∧ (length (buf (send h c)) < sendCap)%nat.
Proof.
  induction 1 as [|client rest Hnotin Hnd IH]; intros h h' Hdel c Hc Hex;
    [by apply elem_of_nil in Hc|].
  cbn [deliver] in Hdel.
  destruct (decide (Some client = Exclude msg)) as [Hexc|Hexc].
  - apply elem_of_cons in Hc as [->|Hc]; [done|]. by eapply IH.
  - destruct (trySend (send h client) (Message msg)) as [ch| |] eqn:Hsend;
      try discriminate.
    apply trySend_Sent_room in Hsend as [Hroom ->].
    apply elem_of_cons in Hc as [->|Hc].
    + assert (Ho : hub_of (deliver rest msg
                             {| clients := clients h;
                                sends := <[client := {| buf := buf (send h client) ++ [Message msg];
                                                        closed := false |}]> (sends h);
                                WSConnectionsActive := WSConnectionsActive h;
                                maxClientsPerSession := maxClientsPerSession h |})
                    = Some h') by (by rewrite Hdel).
      destruct (deliver_frame _ _ _ _ Ho) as (_ & _ & _ & _ & Hs & _).
      unfold send at 1. rewrite (Hs client Hnotin). cbn [sends].
      rewrite lookup_insert_eq. done.
    + destruct (IH _ _ Hdel c Hc Hex) as [Hbuf Hlen].
      rewrite send_insert in Hbuf, Hlen.
      destruct (decide (client = c)) as [->|Hne]; [done|]. done.
Qed.

(** A loop that blocks does so on a visited client, not the excluded one,
    whose queue is open and full. *)
Lemma deliver_Blocked (msg : BroadcastMessage) (order : list Client) :
  ∀ h h' c, deliver order msg h = Blocked h' c →
    c ∈ order ∧ Some c ≠ Exclude msg
    ∧ closed (send h' c) = false ∧ (sendCap ≤ length (buf (send h' c)))%nat.
Proof.
  induction order as [|client rest IH]; intros h h' c; cbn [deliver]; [discriminate|].
  destruct (decide (Some client = Exclude msg)) as [Hexc|Hexc].
  - intros H. destruct (IH _ _ _ H) as (Hin & ?). split; [by apply list_elem_of_further|done].
  - destruct (trySend (send h client) (Message msg)) as [ch| |] eqn:Hsend.
    + intros H. destruct (IH _ _ _ H) as (Hin & ?).
      split; [by apply list_elem_of_further|done].
    + intros [= <- <-]. apply trySend_Full in Hsend as [? ?].
      split; [apply list_elem_of_here|done].
    + discriminate.
Qed.

(** Queues within their capacity stay so through a loop. *)
Lemma deliver_bounded (msg : BroadcastMessage) (order : list Client) :
  ∀ h h', hub_of (deliver order msg h) = Some h' →
    (∀ c, (length (buf (send h c)) ≤ sendCap)%nat) →
    ∀ c, (length (buf (send h' c)) ≤ sendCap)%nat.
Proof.
  induction order as [|client rest IH]; intros h h'; cbn [deliver].
  - by intros [= <-].
  - destruct (decide (Some client = Exclude msg)); [apply IH|].
    destruct (trySend (send h client) (Message msg)) as [ch| |] eqn:Hsend.
    + apply trySend_Sent_room in Hsend as [Hroom ->].
      intros Ho Hb. eapply IH; [exact Ho|]. intros c. rewrite send_insert.
      destruct (decide (client = c)); [|done].
      cbn [buf]. rewrite length_app. cbn [length]. lia.
    + by intros [= <-].
    + discriminate.
Qed.

Lemma gauge_insert (h : Hub) (cl : gmap string (gset Client)) (sn : gmap Client Chan)
    (sid sid' : string) (v : Z) :
  gauge {| clients := cl; sends := sn;
           WSConnectionsActive := <[sid := v]> (WSConnectionsActive h);
           maxClientsPerSession := maxClientsPerSession h |} sid'
  = if decide (sid = sid') then v else gauge h sid'.
Proof.
  unfold gauge. cbn [WSConnectionsActive].
  destruct (decide (sid = sid')) as [<-|Hne];
    [by rewrite lookup_insert_eq|by rewrite lookup_insert_ne].
Qed.

Lemma sessionClients_insert (h : Hub) (sn : gmap Client Chan) (g : gmap string Z)
    (sid sid' : string) (set : gset Client) :
  sessionClients {| clients := <[sid := set]> (clients h); sends := sn;
                    WSConnectionsActive := g;
                    maxClientsPerSession := maxClientsPerSession h |} sid'
  = if decide (sid = sid') then set else sessionClients h sid'.
Proof.
  unfold sessionClients. cbn [clients].
  destruct (decide (sid = sid')) as [<-|Hne];
    [by rewrite lookup_insert_eq|by rewrite lookup_insert_ne].
Qed.

Lemma sessionClients_after_unregister (h : Hub) (sn : gmap Client Chan) (g : gmap string Z)
    (sid sid' : string) (set : gset Client) :
  sessionClients
    {| clients := if (size set =? 0)%nat then delete sid (clients h)
                  else <[sid := set]> (clients h);
       sends := sn; WSConnectionsActive := g;
       maxClientsPerSession := maxClientsPerSession h |} sid'
  = if decide (sid = sid') then set else sessionClients h sid'.
Proof.
  unfold sessionClients. cbn [clients].
  destruct (size set =? 0)%nat eqn:E.
  - apply Nat.eqb_eq, size_empty_iff in E. apply leibniz_equiv in E. subst set.
    destruct (decide (sid = sid')) as [<-|Hne];
      [by rewrite lookup_delete_eq|by rewrite lookup_delete_ne].
  - destruct (decide (sid = sid')) as [<-|Hne];
      [by rewrite lookup_insert_eq|by rewrite lookup_insert_ne].
Qed.

Lemma Run_counts (regs : list Client) (h h' : Hub) (ev : event) :
  hub_inv regs h → hub_counts h → Run h ev (Done h') → hub_counts h'.
Proof.
  intros Hinv [Hne Hb] HR. apply Run_cases in HR.
  destruct ev as [c|c|msg]; [| |destruct HR as (order & Hperm & Heq)];
    [rename HR into Heq..|].
  - (* register *)
    destruct (registerClient_cases h c (inv_max _ _ Hinv)) as [[Hfull Hreg]|[Hroom Hreg]];
      rewrite Hreg in Heq.
    + destruct (close (send h c)) as [ch|] eqn:Hcl; [|discriminate].
      injection Heq as <-. apply close_Some in Hcl as (_ & _ & Hbuf). split; [done|].
      intros c'. rewrite send_insert. destruct (decide (c = c')) as [<-|]; [|done].
      rewrite Hbuf. apply Hb.
    + injection Heq as <-. split; [|done].
      intros sid set. cbn [clients].
      destruct (decide (sessionID c = sid)) as [<-|Hsid].
      * rewrite lookup_insert_eq. intros [= <-]. set_solver.
      * rewrite lookup_insert_ne by done. apply Hne.
  - (* unregister *)
    destruct (unregisterClient_cases h c) as [[Hin Hun]|[Hout Hun]]; rewrite Hun in Heq.
    + destruct (close (send h c)) as [ch|] eqn:Hcl; [|discriminate].
      injection Heq as <-. apply close_Some in Hcl as (_ & _ & Hbuf). split.
      * intros sid set. cbn [clients].
        destruct (size (sessionClients h (sessionID c) ∖ {[c]}) =? 0)%nat eqn:E.
        -- destruct (decide (sessionID c = sid)) as [<-|Hsid].
           ++ by rewrite lookup_delete_eq.
           ++ rewrite lookup_delete_ne by done. apply Hne.
        -- destruct (decide (sessionID c = sid)) as [<-|Hsid].
           ++ rewrite lookup_insert_eq. intros [= <-] Hempty.
              rewrite Hempty, size_empty in E. discriminate.
           ++ rewrite lookup_insert_ne by done. apply Hne.
      * intros c'. rewrite send_insert. destruct (decide (c = c')) as [<-|]; [|done].
        rewrite Hbuf. apply Hb.
    + by injection Heq as <-.
  - (* broadcast *)
    assert (Hh : hub_of (broadcastMessage h msg order) = Some h') by (by rewrite Heq).
    destruct (broadcastMessage_frame _ _ _ _ Hh) as (Hc & Hga & _).
    split.
    + rewrite Hc. apply Hne.
    + unfold broadcastMessage in Hh.
      destruct (clients h !! SessionID msg); [|by injection Hh as <-].
      by eapply deliver_bounded.
Qed.

Lemma Run_gauge (regs : list Client) (h h' : Hub) (ev : event) :
  hub_inv regs h → gauge_counts h →
  (∀ c, ev = Register c → c ∉ regs) →
  Run h ev (Done h') → gauge_counts h'.
Proof.
  intros Hinv Hg Hnew HR. apply Run_cases in HR.
  destruct ev as [c|c|msg]; [| |destruct HR as (order & Hperm & Heq)];
    [rename HR into Heq..|].
  - (* register *)
    assert (Hc : c ∉ regs) by (by apply Hnew).
    destruct (registerClient_cases h c (inv_max _ _ Hinv)) as [[Hfull Hreg]|[Hroom Hreg]];
      rewrite Hreg in Heq.
    + destruct (close (send h c)) as [ch|]; [|discriminate]. by injection Heq as <-.
    + injection Heq as <-.
      assert (Hnotin : c ∉ sessionClients h (sessionID c)).
      { intros (set & Hs & Hin)%sessionClients_elem.
        apply Hc. by eapply (inv_member _ _ Hinv). }
      intros sid. rewrite gauge_insert, sessionClients_insert.
      destruct (decide (sessionID c = sid)) as [<-|]; [|done].
      rewrite size_union by set_solver. rewrite size_singleton, Hg. lia.
  - (* unregister *)
    destruct (unregisterClient_cases h c) as [[Hin Hun]|[Hout Hun]]; rewrite Hun in Heq.
    + destruct (close (send h c)) as [ch|]; [|discriminate].
      injection Heq as <-.
      intros sid. rewrite gauge_insert, sessionClients_after_unregister.
      destruct (decide (sessionID c = sid)) as [<-|]; [|done].
      rewrite size_difference by set_solver. rewrite size_singleton, Hg.
      assert (Hsub : ({[c]} : gset Client) ⊆ sessionClients h (sessionID c))
        by (by apply singleton_subseteq_l).
      apply subseteq_size in Hsub. rewrite size_singleton in Hsub. lia.
    + by injection Heq as <-.
  - (* broadcast *)
    assert (Hh : hub_of (broadcastMessage h msg order) = Some h') by (by rewrite Heq).
    destruct (broadcastMessage_frame _ _ _ _ Hh) as (Hc & Hga & _).
    intros sid. unfold gauge, sessionClients. rewrite Hc, Hga. apply Hg.
Qed.

Lemma NewHub_counts : hub_counts NewHub.
Proof.
  split.
  - intros sid set. cbn. by rewrite lookup_empty.
  - intros c. unfold send. cbn. rewrite lookup_empty. cbn. unfold sendCap. lia.
Qed.

Lemma reaches_counts (evs : list event) (h : Hub) : reaches evs h → hub_counts h.
Proof.
  induction 1 as [|evs h ev h' Hr IH HR]; [apply NewHub_counts|].
  eapply Run_counts; [by apply reaches_inv|exact IH|exact HR].
Qed.

Lemma reaches_gauge (evs : list event) (h : Hub) :
  reaches evs h → NoDup (registered evs) → gauge_counts h.
Proof.
  induction 1 as [|evs h ev h' Hr IH HR]; intros Hnd.
  - intros sid. unfold gauge, sessionClients. cbn. by rewrite !lookup_empty.
  - rewrite registered_snoc in Hnd. apply NoDup_app in Hnd as (Hnd & Hdisj & _).
    eapply Run_gauge; [by apply reaches_inv|by apply IH| |exact HR].
    intros c -> Hc. apply (Hdisj c Hc). apply list_elem_of_here.
Qed.

End HubFacts.

(** X14. As long as no client is registered twice, the connections-active
    gauge of every session equals the number of clients in its set. *)
Theorem gauge_counts_clients (evs : list websocket.event) (h : websocket.Hub)
    (sid : string) :
  websocket.reaches evs h → NoDup (websocket.registered evs) →
  websocket.gauge h sid = Z.of_nat (size (websocket.sessionClients h sid)).
Proof. intros Hr Hnd. by apply (reaches_gauge evs h Hr Hnd). Qed.

Lemma gauge_counts_clients_witness :
  websocket.gauge (sample.hubAfter (sample.registers 11)) "cap"
  = Z.of_nat (size (websocket.sessionClients (sample.hubAfter (sample.registers 11)) "cap")).
Proof.
  apply (gauge_counts_clients (sample.registers 11)).
  - apply run_reaches. vm_compute. reflexivity.
  - apply (bool_decide_unpack _). vm_compute. reflexivity.
Defined.

(** X15. The hub keeps no session with an empty client set: in every
    reachable state each session in the map has at least one client. *)
Theorem sessions_nonempty (evs : list websocket.event) (h : websocket.Hub)
    (sid : string) (set : gset websocket.Client) :
  websocket.reaches evs h →
  websocket.clients h !! sid = Some set →
  (1 ≤ size set)%nat.
Proof.
  intros Hr Hs. pose proof (websocket.counts_nonempty _ (reaches_counts _ _ Hr) _ _ Hs) as Hne.
  destruct (size set) eqn:E; [|lia].
  apply size_empty_iff, leibniz_equiv in E. done.
Qed.

Lemma sessions_nonempty_witness :
  websocket.clients
    (sample.hubAfter (sample.twoClients ++ [websocket.Unregister sample.clientA])) !! "s2"
  = Some {[sample.clientB]}
  ∧ (1 ≤ size ({[sample.clientB]} : gset websocket.Client))%nat.
Proof.
  assert (H : websocket.clients
                (sample.hubAfter (sample.twoClients ++ [websocket.Unregister sample.clientA]))
              !! "s2" = Some {[sample.clientB]}) by (vm_compute; reflexivity).
  split; [exact H|].
  apply (sessions_nonempty (sample.twoClients ++ [websocket.Unregister sample.clientA])
           (sample.hubAfter (sample.twoClients ++ [websocket.Unregister sample.clientA]))
           "s2"); [|exact H].
  apply run_reaches. vm_compute. reflexivity.
Defined.

(** X16. No send queue ever holds more than 256 frames. *)
Theorem send_queue_bounded (evs : list websocket.event) (h : websocket.Hub)
    (c : websocket.Client) :
  websocket.reaches evs h →
  (length (websocket.buf (websocket.send h c)) ≤ 256)%nat.
Proof. intros Hr. apply (websocket.counts_bounded _ (reaches_counts _ _ Hr)). Qed.

Lemma send_queue_bounded_witness :
  (length
     (websocket.buf
        (websocket.send
           (sample.hubAfter (sample.twoClients ++ [websocket.Broadcast sample.fromA]))
           sample.clientB)) ≤ 256)%nat.
Proof.
  apply (send_queue_bounded (sample.twoClients ++ [websocket.Broadcast sample.fromA])).
  apply run_reaches. vm_compute. reflexivity.
Defined.

Lemma Run_broadcast_order (h : websocket.Hub) (msg : websocket.BroadcastMessage)
    (o : websocket.outcome) :
  websocket.Run h (websocket.Broadcast msg) o →
  ∃ order, NoDup order
    ∧ (∀ c, c ∈ order ↔ c ∈ websocket.sessionClients h (websocket.SessionID msg))
    ∧ websocket.broadcastMessage h msg order = o.
Proof.
  intros (order & Hperm & Heq)%Run_cases. exists order. split; [|split; [|done]].
  - rewrite Hperm. apply NoDup_elements.
  - intros c. rewrite Hperm. apply elem_of_elements.
Qed.

(** X17. A broadcast that returns has put the message exactly once at the
    end of the send queue of every client of the session but the excluded
    one, and has changed no queue of any other client and no client set. *)
Theorem broadcast_delivers (h h' : websocket.Hub) (msg : websocket.BroadcastMessage)
    (c : websocket.Client) :
  websocket.Run h (websocket.Broadcast msg) (websocket.Done h') →
  (c ∈ websocket.sessionClients h (websocket.SessionID msg) →
   Some c ≠ websocket.Exclude msg →
   websocket.buf (websocket.send h' c)
   = websocket.buf (websocket.send h c) ++ [websocket.Message msg]
   ∧ websocket.closed (websocket.send h' c) = websocket.closed (websocket.send h c))
  ∧ (c ∉ websocket.sessionClients h (websocket.SessionID msg)
     ∨ Some c = websocket.Exclude msg →
     websocket.send h' c = websocket.send h c)
  ∧ websocket.clients h' = websocket.clients h.
Proof.
  intros (order & Hnd & Hmem & Heq)%Run_broadcast_order.
  assert (Ho : websocket.hub_of (websocket.broadcastMessage h msg order) = Some h')
    by (by rewrite Heq).
  destruct (broadcastMessage_frame _ _ _ _ Ho) as (Hc & _ & _ & Hcl & Hs & He).
  split; [|split; [|done]].
  - intros Hin Hex. split; [|apply Hcl].
    unfold websocket.broadcastMessage in Heq.
    destruct (websocket.clients h !! websocket.SessionID msg) eqn:E.
    + apply (deliver_Done msg order Hnd h h' Heq c); [by apply Hmem|done].
    + apply sessionClients_elem in Hin as (set & Hset & _). congruence.
  - intros [Hout|Hex]; unfold websocket.send.
    + rewrite Hs; [done|]. by rewrite Hmem.
    + by rewrite (He c).
Qed.

Lemma broadcast_delivers_witness :
  websocket.buf
    (websocket.send
       (sample.hubAfter (sample.twoClients ++ [websocket.Broadcast sample.fromA]))
       sample.clientB)
  = websocket.buf (websocket.send (sample.hubAfter sample.twoClients) sample.clientB)
    ++ [websocket.Message sample.fromA].
Proof.
  refine (proj1 (proj1 (broadcast_delivers (sample.hubAfter sample.twoClients)
                          (sample.hubAfter (sample.twoClients
                                            ++ [websocket.Broadcast sample.fromA]))
                          sample.fromA sample.clientB _) _ _)).
  - replace (websocket.Done
               (sample.hubAfter (sample.twoClients ++ [websocket.Broadcast sample.fromA])))
      with (websocket.broadcastMessage (sample.hubAfter sample.twoClients) sample.fromA
              (elements (websocket.sessionClients (sample.hubAfter sample.twoClients)
                           (websocket.SessionID sample.fromA))))
      by (vm_compute; reflexivity).
    by constructor.
  - apply (bool_decide_unpack _). vm_compute. reflexivity.
  - discriminate.
Defined.

(** X18. One full queue stalls the hub.  If a client of the session other
    than the excluded one has 256 frames queued, the broadcast does not
    return: the loop stays blocked on handing a client with a full queue to
    its own unregister channel, and from then on the hub handles no event.
    No client is unregistered by it. *)
Theorem broadcast_blocks_on_full_queue (evs : list websocket.event) (h : websocket.Hub)
    (msg : websocket.BroadcastMessage) (o : websocket.outcome) (c : websocket.Client) :
  websocket.reaches evs h → NoDup (websocket.registered evs) →
  websocket.Run h (websocket.Broadcast msg) o →
  c ∈ websocket.sessionClients h (websocket.SessionID msg) →
  Some c ≠ websocket.Exclude msg →
  (256 ≤ length (websocket.buf (websocket.send h c)))%nat →
  ∃ h' c', o = websocket.Blocked h' c'
    ∧ c' ∈ websocket.sessionClients h (websocket.SessionID msg)
    ∧ length (websocket.buf (websocket.send h' c')) = 256%nat
    ∧ websocket.clients h' = websocket.clients h.
Proof.
  intros Hr Hnd HR Hin Hex Hfull.
  pose proof (reaches_inv _ _ Hr) as Hinv.
  pose proof (reaches_open _ _ Hr Hnd) as Hopen.
  assert (Hnew : ∀ c0, websocket.Broadcast msg = websocket.Register c0 →
                       c0 ∉ websocket.registered evs) by (intros c0 H0; discriminate H0).
  pose proof (Run_no_panic _ _ _ _ Hinv Hopen Hnew HR) as Hnp.
  destruct o as [h'|h' c'|reason]; [| |by destruct (Hnp reason)].
  - destruct (Run_broadcast_order _ _ _ HR) as (order & Hndo & Hmem & Heq).
    unfold websocket.broadcastMessage in Heq.
    destruct (websocket.clients h !! websocket.SessionID msg) eqn:E.
    + destruct (deliver_Done msg order Hndo h h' Heq c) as [_ Hroom]; [by apply Hmem|done|].
      unfold websocket.sendCap in Hroom. lia.
    + apply sessionClients_elem in Hin as (set & Hset & _). congruence.
  - exists h', c'. split; [done|].
    destruct (Run_broadcast_order _ _ _ HR) as (order & Hndo & Hmem & Heq).
    assert (Ho : websocket.hub_of (websocket.broadcastMessage h msg order) = Some h')
      by (by rewrite Heq).
    destruct (broadcastMessage_frame _ _ _ _ Ho) as (Hc & _).
    unfold websocket.broadcastMessage in Heq, Ho.
    destruct (websocket.clients h !! websocket.SessionID msg) eqn:E; [|discriminate].
    destruct (deliver_Blocked _ _ _ _ _ Heq) as (Hin' & _ & _ & Hlen).
    split; [by apply Hmem|]. split; [|done].
    pose proof (websocket.counts_bounded _ (reaches_counts _ _ Hr)) as Hb.
    pose proof (deliver_bounded _ _ _ _ Ho Hb c') as Hb'.
    unfold websocket.sendCap in *. lia.
Qed.

Lemma broadcast_blocks_on_full_queue_witness :
  ∃ h' c',
    websocket.broadcastMessage (sample.hubAfter fixtures.floodB) sample.fromA
      (elements (websocket.sessionClients (sample.hubAfter fixtures.floodB)
                   (websocket.SessionID sample.fromA)))
    = websocket.Blocked h' c'
    ∧ c' ∈ websocket.sessionClients (sample.hubAfter fixtures.floodB)
             (websocket.SessionID sample.fromA)
    ∧ length (websocket.buf (websocket.send h' c')) = 256%nat
    ∧ websocket.clients h' = websocket.clients (sample.hubAfter fixtures.floodB).
Proof.
  apply (broadcast_blocks_on_full_queue fixtures.floodB _ _ _ sample.clientB).
  - apply run_reaches. vm_compute. reflexivity.
  - apply (bool_decide_unpack _). vm_compute. reflexivity.
  - by constructor.
  - apply (bool_decide_unpack _). vm_compute. reflexivity.
  - discriminate.
  - vm_compute. lia.
Defined.

(** X19. Unregister undoes an accepted register and is idempotent: when a
    client not registered before joins a session below the cap and is then
    unregistered, the client sets are exactly those before it joined, every
    gauge reads as before, its send queue is closed, and a second unregister
    of it changes nothing. *)
Theorem unregister_undoes_register (evs : list websocket.event) (h : websocket.Hub)
    (c : websocket.Client) :
  websocket.reaches evs h →
  c ∉ websocket.registered evs →
  (size (websocket.sessionClients h (websocket.sessionID c)) < 10)%nat →
  ∃ h1 h2,
    websocket.registerClient h c = websocket.Done h1
    ∧ c ∈ websocket.sessionClients h1 (websocket.sessionID c)
    ∧ websocket.unregisterClient h1 c = websocket.Done h2
    ∧ websocket.clients h2 = websocket.clients h
    ∧ (∀ sid, websocket.gauge h2 sid = websocket.gauge h sid)
    ∧ websocket.closed (websocket.send h2 c) = true
    ∧ websocket.unregisterClient h2 c = websocket.Done h2.
Proof.
  intros Hr Hc Hroom.
  pose proof (reaches_inv _ _ Hr) as Hinv.
  pose proof (reaches_counts _ _ Hr) as [Hne _].
  assert (Hnotin : c ∉ websocket.sessionClients h (websocket.sessionID c)).
  { intros (set & Hs & Hin)%sessionClients_elem.
    apply Hc. by eapply (websocket.inv_member _ _ Hinv). }
  destruct (registerClient_cases h c (websocket.inv_max _ _ Hinv)) as [[Hfull _]|[_ Hreg]];
    [lia|].
  eexists _, _. split; [exact Hreg|].
  set (S := websocket.sessionClients h (websocket.sessionID c)) in *.
  set (h1 := {| websocket.clients := _ |}) in *.
  assert (Hs1 : websocket.sessionClients h1 (websocket.sessionID c) = {[c]} ∪ S).
  { subst h1. rewrite sessionClients_insert. by rewrite decide_True. }
  assert (Hin1 : c ∈ websocket.sessionClients h1 (websocket.sessionID c))
    by (rewrite Hs1; by apply elem_of_union_l, elem_of_singleton).
  split; [exact Hin1|].
  destruct (unregisterClient_cases h1 c) as [[_ Hun]|[Hout _]]; [|done].
  assert (Hopen : websocket.closed (websocket.send h1 c) = false).
  { unfold websocket.send. subst h1. cbn [websocket.sends].
    by rewrite (websocket.inv_fresh _ _ Hinv c Hc). }
  rewrite (close_open _ Hopen) in Hun. rewrite Hs1 in Hun.
  assert (Hdiff : ({[c]} ∪ S) ∖ {[c]} = S).
  { rewrite difference_union_distr_l_L, difference_diag_L, union_empty_l_L.
    apply difference_disjoint_L. by apply disjoint_singleton_r. }
  rewrite Hdiff in Hun.
  assert (Hclients :
            (if (size S =? 0)%nat
             then delete (websocket.sessionID c) (websocket.clients h1)
             else <[websocket.sessionID c := S]> (websocket.clients h1))
            = websocket.clients h).
  { subst h1. cbn [websocket.clients]. subst S. unfold websocket.sessionClients in *.
    destruct (websocket.clients h !! websocket.sessionID c) as [set|] eqn:E.
    - change (default ∅ (Some set)) with set in *.
      destruct (size set =? 0)%nat eqn:Esz.
      + apply Nat.eqb_eq, size_empty_iff, leibniz_equiv in Esz.
        by destruct (Hne _ _ E).
      + rewrite insert_insert_eq. by apply insert_id.
    - change (default ∅ None) with (∅ : gset websocket.Client) in *.
      rewrite size_empty. change (0 =? 0)%nat with true. cbv iota.
      by apply delete_insert_id. }
  rewrite Hclients in Hun.
  split; [exact Hun|]. split; [done|]. split; [|split].
  - intros sid. rewrite gauge_insert.
    destruct (decide (websocket.sessionID c = sid)) as [<-|Hsid].
    + subst h1. rewrite gauge_insert, decide_True by done. lia.
    + subst h1. by rewrite gauge_insert, decide_False.
  - by rewrite send_insert_eq.
  - match goal with |- websocket.unregisterClient ?h2 c = _ =>
      destruct (unregisterClient_cases h2 c) as [[Hin2 _]|[_ Hun2]]; [|exact Hun2] end.
    exfalso. unfold websocket.sessionClients in Hin2. cbn [websocket.clients] in Hin2.
    by apply Hnotin.
Qed.

Lemma unregister_undoes_register_witness :
  ∃ h1 h2,
    websocket.registerClient (sample.hubAfter sample.twoClients) (3%nat, "s2")
    = websocket.Done h1
    ∧ (3%nat, "s2") ∈ websocket.sessionClients h1 "s2"
    ∧ websocket.unregisterClient h1 (3%nat, "s2") = websocket.Done h2
    ∧ websocket.clients h2 = websocket.clients (sample.hubAfter sample.twoClients)
    ∧ (∀ sid, websocket.gauge h2 sid = websocket.gauge (sample.hubAfter sample.twoClients) sid)
    ∧ websocket.closed (websocket.send h2 (3%nat, "s2")) = true
    ∧ websocket.unregisterClient h2 (3%nat, "s2") = websocket.Done h2.
Proof.
  apply (unregister_undoes_register sample.twoClients).
  - apply run_reaches. vm_compute. reflexivity.
  - apply (bool_decide_unpack _). vm_compute. reflexivity.
  - vm_compute. lia.
Defined.

(** X20. [GetActiveConnections] counts every connected client once: in a
    reachable state it is the number of distinct clients that are in the set
    of some session. *)
Theorem GetActiveConnections_counts (evs : list websocket.event) (h : websocket.Hub) :
  websocket.reaches evs h →
  ∃ connected : gset websocket.Client,
    (∀ c, c ∈ connected ↔ ∃ sid, c ∈ websocket.sessionClients h sid)
    ∧ websocket.GetActiveConnections h = size connected.
Proof.
  intros Hr. pose proof (websocket.inv_member _ _ (reaches_inv _ _ Hr)) as Hmem.
  assert (Hgen : ∀ m : gmap string (gset websocket.Client),
            (∀ sid set c, m !! sid = Some set → c ∈ set → websocket.sessionID c = sid) →
            ∃ X : gset websocket.Client,
              (∀ c, c ∈ X ↔ ∃ sid set, m !! sid = Some set ∧ c ∈ set)
              ∧ map_fold (λ _ (set : gset websocket.Client) count, (count + size set)%nat)
                  0%nat m = size X).
  { intros m.
    apply (map_fold_weak_ind
             (λ r m, (∀ sid set c, m !! sid = Some set → c ∈ set → websocket.sessionID c = sid) →
                     ∃ X : gset websocket.Client,
                       (∀ c, c ∈ X ↔ ∃ sid set, m !! sid = Some set ∧ c ∈ set) ∧ r = size X)).
    - intros _. exists ∅. split; [|by rewrite size_empty].
      intros c. split; [set_solver|]. intros (sid & set & Hs & _).
      by rewrite lookup_empty in Hs.
    - intros i x m' r Hi IH Hsess.
      destruct IH as (X & HX & ->).
      { intros sid set c Hs. apply Hsess.
        rewrite lookup_insert_ne; [done|]. intros <-. congruence. }
      exists (x ∪ X). split.
      + intros c. rewrite elem_of_union, HX. split.
        * intros [Hc|(sid & set & Hs & Hc)].
          -- exists i, x. by rewrite lookup_insert_eq.
          -- exists sid, set. split; [|done].
             rewrite lookup_insert_ne; [done|]. intros <-. congruence.
        * intros (sid & set & Hs & Hc). destruct (decide (i = sid)) as [<-|Hne].
          -- rewrite lookup_insert_eq in Hs. injection Hs as <-. by left.
          -- rewrite lookup_insert_ne in Hs by done. right. by exists sid, set.
      + rewrite size_union; [lia|].
        intros c Hcx HcX. apply HX in HcX as (sid & set & Hs & Hc).
        assert (websocket.sessionID c = i)
          by (apply (Hsess i x c); [by rewrite lookup_insert_eq|done]).
        assert (websocket.sessionID c = sid).
        { apply (Hsess sid set c); [|done].
          rewrite lookup_insert_ne; [done|]. intros <-. congruence. }
        congruence. }
  destruct (Hgen (websocket.clients h)) as (X & HX & Hsz).
  { intros sid set c Hs Hin. by destruct (Hmem _ _ _ Hs Hin). }
  exists X. split; [|exact Hsz].
  intros c. rewrite HX. split.
  - intros (sid & set & Hs & Hc). exists sid. apply sessionClients_elem. eauto.
  - intros (sid & Hc). apply sessionClients_elem in Hc as (set & Hs & Hc). eauto.
Qed.

Lemma GetActiveConnections_counts_witness :
  ∃ connected : gset websocket.Client,
    (∀ c, c ∈ connected
          ↔ ∃ sid, c ∈ websocket.sessionClients (sample.hubAfter sample.twoClients) sid)
    ∧ websocket.GetActiveConnections (sample.hubAfter sample.twoClients) = size connected.
Proof.
  apply (GetActiveConnections_counts sample.twoClients).
  apply run_reaches. vm_compute. reflexivity.
Defined.

(** ** Live updates *)

Section LiveFacts.

Context {DB : Type}.
Variable Collection : DB → string → option string.
Variable UpsertAnchor : DB → Anchor.t → string + DB.
Variable ReadDocument : DB → string → spatial.readResult.
Variable CreateDocument : DB → Mesh.t → string + DB.
Variable UnmarshalAnchorUpdate : list byte → string + live.AnchorUpdate.
Variable UnmarshalMeshUpdate : list byte → string + live.MeshUpdate.
Variable DecodeString : string → string + list byte.

Let Process :=
  live.ProcessWebSocketMessage DB Collection UpsertAnchor ReadDocument CreateDocument
    UnmarshalAnchorUpdate UnmarshalMeshUpdate DecodeString.

Lemma ingestAnchor_result (st st' : spatial.State DB) (a : Anchor.t)
    (err : option errors.APIError) :
  spatial.ingestAnchor DB Collection UpsertAnchor st a = (err, st') →
  spatial.repo st' = spatial.repo st ∧ ∀ e, err = Some e → api_kind e.
Proof.
  unfold spatial.ingestAnchor.
  destruct (Collection (spatial.db st) spatial.AnchorsCollection).
  - intros [= <- <-]. split; [done|]. intros e [= <-]. by right.
  - destruct (UpsertAnchor (spatial.db st) a).
    + intros [= <- <-]. split; [done|]. intros e [= <-]. by right.
    + intros [= <- <-]. split; [done|]. intros e [=].
Qed.

Lemma ingestMesh_result (st st' : spatial.State DB) (m : Mesh.t)
    (err : option errors.APIError) :
  spatial.ingestMesh DB Collection ReadDocument CreateDocument st m = (err, st') →
  spatial.repo st' = spatial.repo st ∧ ∀ e, err = Some e → api_kind e.
Proof.
  unfold spatial.ingestMesh.
  destruct (Collection (spatial.db st) spatial.MeshesCollection).
  - intros [= <- <-]. split; [done|]. intros e [= <-]. by right.
  - destruct (ReadDocument (spatial.db st) (Mesh.ID m)).
    + intros [= <- <-]. split; [done|]. intros e [=].
    + destruct (CreateDocument (spatial.db st) m).
      * intros [= <- <-]. split; [done|]. intros e [= <-]. by right.
      * intros [= <- <-]. split; [done|]. intros e [=].
    + intros [= <- <-]. split; [done|]. intros e [= <-]. by right.
Qed.

Lemma processMeshForStorage_error_kind (r r' : spatial.Repository) (m : Mesh.t)
    (e : errors.APIError) :
  spatial.processMeshForStorage r m = (Err e, r') → api_kind e.
Proof.
  unfold spatial.processMeshForStorage. destruct (Mesh.IsDelta m).
  - destruct (String.eqb (Mesh.BaseMeshID m) ""); [|discriminate].
    intros [= <- _]. by left.
  - destruct (spatial.meshHashCache r !! spatial.computeMeshHash m); discriminate.
Qed.

Lemma Process_result (st st' : spatial.State DB) (msg : websocket.WSMessage)
    (err : option errors.APIError) :
  Process st msg = (err, st') →
  (∀ e, err = Some e → api_kind e)
  ∧ ∀ h id, spatial.meshHashCache (spatial.repo st) !! h = Some id →
            spatial.meshHashCache (spatial.repo st') !! h = Some id.
Proof.
  unfold Process, live.ProcessWebSocketMessage.
  destruct (String.eqb (websocket.Type_ msg) live.WSTypeAnchorUpdate).
  { unfold live.processAnchorUpdate.
    destruct (UnmarshalAnchorUpdate (websocket.Data msg)).
    - intros [= <- <-]. split; [|done]. intros e [= <-]. by left.
    - intros [Hrepo Herr]%ingestAnchor_result. split; [done|]. by rewrite Hrepo. }
  destruct (String.eqb (websocket.Type_ msg) live.WSTypeMeshUpdate);
    [|intros [= <- <-]; split; [intros e [=]|done]].
  unfold live.processMeshUpdate.
  destruct (UnmarshalMeshUpdate (websocket.Data msg)) as [?|update];
    [intros [= <- <-]; split; [|done]; intros e [= <-]; by left|].
  destruct (DecodeString (live.Vertices update)) as [?|vertices];
    [intros [= <- <-]; split; [|done]; intros e [= <-]; by left|].
  destruct (if String.eqb (live.Faces update) "" then _ else _) as [?|faces];
    [intros [= <- <-]; split; [|done]; intros e [= <-]; by left|].
  destruct (if String.eqb (live.Normals update) "" then _ else _) as [?|normals];
    [intros [= <- <-]; split; [|done]; intros e [= <-]; by left|].
  match goal with |- context [spatial.processMeshForStorage ?r ?m] =>
    destruct (spatial.processMeshForStorage r m) as [[[pm saved]|e0] repo'] eqn:Hp end.
  - match goal with |- context [spatial.ingestMesh _ _ _ _ ?s pm] =>
      destruct (spatial.ingestMesh DB Collection ReadDocument CreateDocument s pm)
        as [[e1|] st1] eqn:Hi end;
      apply ingestMesh_result in Hi as [Hrepo Herr]; cbn [spatial.repo] in Hrepo.
    + intros [= <- <-]. split; [done|]. intros h id Hh. rewrite Hrepo.
      replace repo' with (snd (spatial.processMeshForStorage (spatial.repo st)
        {| Mesh.ID := live.ID update; Mesh.AnchorID := live.AnchorID update;
           Mesh.Vertices := vertices; Mesh.Faces := faces; Mesh.Normals := normals;
           Mesh.Hash := ""; Mesh.IsDelta := live.IsDelta update;
           Mesh.BaseMeshID := live.BaseMeshID update;
           Mesh.DeltaData := if live.IsDelta update then vertices else [];
           Mesh.CompressionLevel := live.CompressionLevel update;
           Mesh.Timestamp := websocket.Timestamp msg |})) by (by rewrite Hp).
      by apply processMeshForStorage_lookup.
    + intros [= <- <-]. split; [intros e [=]|]. intros h id Hh.
      assert (Hrepo' : spatial.repo (if 0 <? saved
                                     then spatial.emit DB
                                            (spatial.MeshDedupSavedBytes
                                               (websocket.WSSessionID msg) saved) st1
                                     else st1) = repo')
        by (by destruct (0 <? saved)).
      rewrite Hrepo'.
      replace repo' with (snd (spatial.processMeshForStorage (spatial.repo st)
        {| Mesh.ID := live.ID update; Mesh.AnchorID := live.AnchorID update;
           Mesh.Vertices := vertices; Mesh.Faces := faces; Mesh.Normals := normals;
           Mesh.Hash := ""; Mesh.IsDelta := live.IsDelta update;
           Mesh.BaseMeshID := live.BaseMeshID update;
           Mesh.DeltaData := if live.IsDelta update then vertices else [];
           Mesh.CompressionLevel := live.CompressionLevel update;
           Mesh.Timestamp := websocket.Timestamp msg |})) by (by rewrite Hp).
      by apply processMeshForStorage_lookup.
  - intros [= <- <-]. split; [|done]. intros e [= <-].
    by eapply processMeshForStorage_error_kind.
Qed.

Lemma ingestAnchors_result (sid : string) (anchors : list Anchor.t) :
  ∀ st err st',
    spatial.ingestAnchors DB Collection UpsertAnchor sid anchors st = (err, st') →
    spatial.repo st' = spatial.repo st
    ∧ ∀ e, err = Some e → ∃ message cause, e = errors.Wrapped message cause ∧ api_kind cause.
Proof.
  induction anchors as [|a rest IH]; intros st err st'; cbn [spatial.ingestAnchors].
  - intros [= <- <-]. split; [done|]. intros e [=].
  - destruct (spatial.ingestAnchor DB Collection UpsertAnchor st a) as [[e0|] st1] eqn:Ha;
      apply ingestAnchor_result in Ha as [Hrepo Herr].
    + intros [= <- <-]. split; [done|]. intros e [= <-]. eexists _, _. split; [done|].
      by apply Herr.
    + intros H. destruct (IH _ _ _ H) as [Hrepo' Herr']. split; [|done].
      by rewrite Hrepo'.
Qed.

Lemma ingestMeshes_result (sid : string) (meshes : list Mesh.t) :
  ∀ st err st',
    spatial.ingestMeshes DB Collection ReadDocument CreateDocument sid meshes st
    = (err, st') →
    (∀ h id, spatial.meshHashCache (spatial.repo st) !! h = Some id →
             spatial.meshHashCache (spatial.repo st') !! h = Some id)
    ∧ ∀ e, err = Some e → ∃ message cause, e = errors.Wrapped message cause ∧ api_kind cause.
Proof.
  induction meshes as [|m rest IH]; intros st err st'; cbn [spatial.ingestMeshes].
  - intros [= <- <-]. split; [done|]. intros e [=].
  - destruct (spatial.processMeshForStorage (spatial.repo st) m)
      as [[[pm saved]|e0] repo'] eqn:Hp.
    + assert (Hstable : ∀ h id, spatial.meshHashCache (spatial.repo st) !! h = Some id →
                                spatial.meshHashCache repo' !! h = Some id).
      { intros h id Hh.
        replace repo' with (snd (spatial.processMeshForStorage (spatial.repo st) m))
          by (by rewrite Hp).
        by apply processMeshForStorage_lookup. }
      match goal with |- context [spatial.ingestMesh _ _ _ _ ?s pm] =>
        destruct (spatial.ingestMesh DB Collection ReadDocument CreateDocument s pm)
          as [[e1|] st1] eqn:Hi end;
        apply ingestMesh_result in Hi as [Hrepo Herr]; cbn [spatial.repo] in Hrepo.
      * intros [= <- <-]. split.
        { cbn [spatial.repo spatial.emit]. rewrite Hrepo. exact Hstable. }
        intros e [= <-]. eexists _, _. split; [done|]. by apply Herr.
      * intros H. destruct (IH _ _ _ H) as [Hst Herr']. split; [|done].
        intros h id Hh. apply Hst.
        assert (Hrepo' : spatial.repo
                           (spatial.emit DB
                              (spatial.MeshesTotal sid
                                 (if Mesh.IsDelta pm then "delta" else "full") "ingest")
                              (if 0 <? saved
                               then spatial.emit DB (spatial.MeshDedupSavedBytes sid saved) st1
                               else st1)) = repo')
          by (by destruct (0 <? saved)).
        rewrite Hrepo'. by apply Hstable.
    + intros [= <- <-]. split; [done|]. intros e [= <-]. eexists _, _. split; [done|].
      by eapply processMeshForStorage_error_kind.
Qed.

End LiveFacts.

(** X24. [Ingest] never changes the id the dedup cache holds for a hash,
    whether it succeeds or fails part-way; and every error it returns wraps
    the validation or database error that caused it. *)
Theorem Ingest_result {DB : Type}
    (Collection : DB → string → option string)
    (UpsertAnchor : DB → Anchor.t → string + DB)
    (ReadDocument : DB → string → spatial.readResult)
    (CreateDocument : DB → Mesh.t → string + DB)
    (st : spatial.State DB) (event : SpatialEvent.t) :
  let '(err, st') :=
    spatial.Ingest DB Collection UpsertAnchor ReadDocument CreateDocument st event in
  (∀ h id, spatial.meshHashCache (spatial.repo st) !! h = Some id →
           spatial.meshHashCache (spatial.repo st') !! h = Some id)
  ∧ ∀ e, err = Some e →
      ∃ message cause, e = errors.Wrapped message cause
        ∧ ((errors.StatusCode cause = 400 ∧ errors.Code cause = "VALIDATION_ERROR")
           ∨ (errors.StatusCode cause = 500 ∧ errors.Code cause = "DATABASE_ERROR")).
Proof.
  unfold spatial.Ingest.
  destruct (spatial.ingestAnchors DB Collection UpsertAnchor _ _ st) as [[e0|] st1] eqn:Ha;
    apply ingestAnchors_result in Ha as [Hrepo Herr].
  - cbv beta iota. split; [by rewrite Hrepo|]. exact Herr.
  - destruct (spatial.ingestMeshes DB Collection ReadDocument CreateDocument _ _ st1)
      as [[e1|] st2] eqn:Hm; apply ingestMeshes_result in Hm as [Hst Herr'];
      rewrite Hrepo in Hst; cbv beta iota.
    + split; [exact Hst|exact Herr'].
    + split; [exact Hst|]. intros e [=].
Qed.

(** X21. Whatever a live message holds and whatever the store does, an
    error from [ProcessWebSocketMessage] is a validation error with status
    400 or a database error with status 500, and the call never changes the
    id the dedup cache holds for a hash. *)
Theorem ProcessWebSocketMessage_result {DB : Type}
    (Collection : DB → string → option string)
    (UpsertAnchor : DB → Anchor.t → string + DB)
    (ReadDocument : DB → string → spatial.readResult)
    (CreateDocument : DB → Mesh.t → string + DB)
    (UnmarshalAnchorUpdate : list byte → string + live.AnchorUpdate)
    (UnmarshalMeshUpdate : list byte → string + live.MeshUpdate)
    (DecodeString : string → string + list byte)
    (st : spatial.State DB) (msg : websocket.WSMessage) :
  let '(err, st') :=
    live.ProcessWebSocketMessage DB Collection UpsertAnchor ReadDocument CreateDocument
      UnmarshalAnchorUpdate UnmarshalMeshUpdate DecodeString st msg in
  (∀ e, err = Some e →
     (errors.StatusCode e = 400 ∧ errors.Code e = "VALIDATION_ERROR")
     ∨ (errors.StatusCode e = 500 ∧ errors.Code e = "DATABASE_ERROR"))
  ∧ ∀ h id, spatial.meshHashCache (spatial.repo st) !! h = Some id →
            spatial.meshHashCache (spatial.repo st') !! h = Some id.
Proof.
  destruct (live.ProcessWebSocketMessage _ _ _ _ _ _ _ _ st msg) as [err st'] eqn:H.
  exact (Process_result _ _ _ _ _ _ _ _ _ _ _ H).
Qed.

(** X22. A live mesh update for a delta with an empty base id, once its
    envelope and base64 fields decode, is refused with the validation error
    and changes nothing; the reader then answers the sender with a
    PROCESSING_ERROR frame carrying "validation error: delta mesh missing
    base_mesh_id" and hands nothing to the hub. *)
Theorem live_delta_without_base {DB : Type}
    (Collection : DB → string → option string)
    (UpsertAnchor : DB → Anchor.t → string + DB)
    (ReadDocument : DB → string → spatial.readResult)
    (CreateDocument : DB → Mesh.t → string + DB)
    (UnmarshalAnchorUpdate : list byte → string + live.AnchorUpdate)
    (UnmarshalMeshUpdate : list byte → string + live.MeshUpdate)
    (DecodeString : string → string + list byte)
    (Marshal : websocket.WSMessage → list byte)
    (st : spatial.State DB) (c : websocket.Client) (msg : websocket.WSMessage)
    (update : live.MeshUpdate) (vertices : list byte) :
  websocket.Type_ msg = "mesh_update" →
  UnmarshalMeshUpdate (websocket.Data msg) = inr update →
  live.IsDelta update = true → live.BaseMeshID update = "" →
  DecodeString (live.Vertices update) = inr vertices →
  (live.Faces update = "" ∨ ∃ faces, DecodeString (live.Faces update) = inr faces) →
  (live.Normals update = "" ∨ ∃ normals, DecodeString (live.Normals update) = inr normals) →
  let process st msg :=
    live.ProcessWebSocketMessage DB Collection UpsertAnchor ReadDocument CreateDocument
      UnmarshalAnchorUpdate UnmarshalMeshUpdate DecodeString st msg in
  process st msg = (Some (errors.ValidationError "delta mesh missing base_mesh_id"), st)
  ∧ websocket.handleDataUpdate (λ m, fst (process st m)) Marshal c msg
    = websocket.SendError "PROCESSING_ERROR"
        "validation error: delta mesh missing base_mesh_id".
Proof.
  intros Ht Hu Hd Hb Hv Hf Hn process.
  assert (Hp : process st msg
               = (Some (errors.ValidationError "delta mesh missing base_mesh_id"), st)).
  { unfold process, live.ProcessWebSocketMessage. rewrite Ht.
    change (String.eqb "mesh_update" live.WSTypeAnchorUpdate) with false.
    change (String.eqb "mesh_update" live.WSTypeMeshUpdate) with true. cbv iota.
    unfold live.processMeshUpdate. rewrite Hu, Hv.
    assert (Hf' : ∃ faces, (if String.eqb (live.Faces update) "" then inr []
                            else DecodeString (live.Faces update)) = inr faces).
    { destruct Hf as [->|[faces Hf]]; [by eexists|].
      destruct (String.eqb (live.Faces update) ""); by eexists. }
    assert (Hn' : ∃ normals, (if String.eqb (live.Normals update) "" then inr []
                              else DecodeString (live.Normals update)) = inr normals).
    { destruct Hn as [->|[normals Hn]]; [by eexists|].
      destruct (String.eqb (live.Normals update) ""); by eexists. }
    destruct Hf' as [faces ->]. destruct Hn' as [normals ->].
    rewrite processMeshForStorage_delta_err; [reflexivity|by rewrite Hd|by rewrite Hb]. }
  split; [exact Hp|].
  unfold websocket.handleDataUpdate. rewrite Hp. reflexivity.
Qed.

Lemma live_delta_without_base_witness :
  live.ProcessWebSocketMessage memdb.DB memdb.Collection memdb.UpsertAnchor
    memdb.ReadDocument memdb.CreateDocument fixtures.UnmarshalAnchorUpdate
    fixtures.UnmarshalMeshUpdate fixtures.DecodeString
    (memdb.state memdb.empty) fixtures.badMessage
  = (Some (errors.ValidationError "delta mesh missing base_mesh_id"), memdb.state memdb.empty)
  ∧ websocket.handleDataUpdate
      (λ m, fst (live.ProcessWebSocketMessage memdb.DB memdb.Collection memdb.UpsertAnchor
                   memdb.ReadDocument memdb.CreateDocument fixtures.UnmarshalAnchorUpdate
                   fixtures.UnmarshalMeshUpdate fixtures.DecodeString
                   (memdb.state memdb.empty) m))
      (λ m, websocket.Data m) sample.clientA fixtures.badMessage
    = websocket.SendError "PROCESSING_ERROR"
        "validation error: delta mesh missing base_mesh_id".
Proof.
  apply (live_delta_without_base memdb.Collection memdb.UpsertAnchor memdb.ReadDocument
           memdb.CreateDocument fixtures.UnmarshalAnchorUpdate fixtures.UnmarshalMeshUpdate
           fixtures.DecodeString (λ m, websocket.Data m) (memdb.state memdb.empty)
           sample.clientA fixtures.badMessage fixtures.badUpdate
           (map byte_of_ascii (list_ascii_of_string "AQID")));
    try reflexivity; by left.
Defined.

(** X23. The reader hands a frame to the hub only for an anchor or mesh
    update that the repository accepted, and always for the session the
    client is bound to, with the client itself excluded, whatever session id
    the frame names; frames of any other type but ping are answered with an
    UNKNOWN_TYPE error. *)
Theorem ReadPump_dispatch
    (process : websocket.WSMessage → option errors.APIError)
    (marshal : websocket.WSMessage → list byte)
    (unmarshal : list byte → option websocket.WSMessage) (now : Z)
    (c : websocket.Client) (message : list byte) :
  match live.ReadPump process marshal unmarshal now c message with
  | live.Update (websocket.ToHub bm) =>
      ∃ ws, unmarshal message = Some ws
        ∧ (websocket.Type_ ws = "anchor_update" ∨ websocket.Type_ ws = "mesh_update")
        ∧ websocket.SessionID bm = websocket.sessionID c
        ∧ websocket.Exclude bm = Some c
  | live.Update (websocket.SendError code _) =>
      code = "PROCESSING_ERROR"
      ∧ ∃ ws, unmarshal message = Some ws
          ∧ (websocket.Type_ ws = "anchor_update" ∨ websocket.Type_ ws = "mesh_update")
  | live.Reply pong =>
      ∃ ws, unmarshal message = Some ws ∧ websocket.Type_ ws = "ping"
        ∧ websocket.Type_ pong = "pong"
        ∧ websocket.TraceID pong = websocket.TraceID ws
        ∧ websocket.Timestamp pong = now
        ∧ websocket.WSSessionID pong
          = (if String.eqb (websocket.WSSessionID ws) "" then websocket.sessionID c
             else websocket.WSSessionID ws)
  | live.ReplyError code _ =>
      (code = "INVALID_MESSAGE" ∧ unmarshal message = None)
      ∨ (code = "UNKNOWN_TYPE"
         ∧ ∃ ws, unmarshal message = Some ws
             ∧ websocket.Type_ ws ≠ "ping" ∧ websocket.Type_ ws ≠ "anchor_update"
             ∧ websocket.Type_ ws ≠ "mesh_update")
  end.
Proof.
  unfold live.ReadPump. destruct (unmarshal message) as [ws|]; [|by left].
  set (ws' := if String.eqb (websocket.WSSessionID ws) "" then _ else ws).
  assert (Hty : websocket.Type_ ws' = websocket.Type_ ws)
    by (subst ws'; by destruct (String.eqb (websocket.WSSessionID ws) "")).
  assert (Htr : websocket.TraceID ws' = websocket.TraceID ws)
    by (subst ws'; by destruct (String.eqb (websocket.WSSessionID ws) "")).
  assert (Hse : websocket.WSSessionID ws'
                = if String.eqb (websocket.WSSessionID ws) "" then websocket.sessionID c
                  else websocket.WSSessionID ws)
    by (subst ws'; by destruct (String.eqb (websocket.WSSessionID ws) "")).
  rewrite Hty.
  destruct (String.eqb (websocket.Type_ ws) live.WSTypePing) eqn:Hping.
  { apply String.eqb_eq in Hping. exists ws. cbn. by rewrite Htr, Hse. }
  apply String.eqb_neq in Hping.
  destruct (String.eqb (websocket.Type_ ws) live.WSTypeAnchorUpdate) eqn:Ha;
    [apply String.eqb_eq in Ha|apply String.eqb_neq in Ha];
    (destruct (String.eqb (websocket.Type_ ws) live.WSTypeMeshUpdate) eqn:Hm;
     [apply String.eqb_eq in Hm|apply String.eqb_neq in Hm]);
    cbn [orb]; try (right; split; [done|]; by exists ws);
    unfold websocket.handleDataUpdate; destruct (process ws');
    try (split; [done|]); exists ws; auto.
Qed.

(** ** The query planner, continued *)

(** X25. The text of a planned query does not depend on the values of the
    session id, the time bounds, the anchor id or the radius, only on which
    of the filters apply (and on the limit): two requests with the same
    filters and limit get the same text, character for character. *)
Theorem buildQuery_text_independent (p q : QueryParams.t) :
  (QueryParams.SessionID p = "" ↔ QueryParams.SessionID q = "") →
  (0 < QueryParams.Since p ↔ 0 < QueryParams.Since q) →
  (0 < QueryParams.Until p ↔ 0 < QueryParams.Until q) →
  negb (String.eqb (QueryParams.AnchorID p) "") && PrimFloat.ltb 0 (QueryParams.Radius p)
  = negb (String.eqb (QueryParams.AnchorID q) "") && PrimFloat.ltb 0 (QueryParams.Radius q) →
  QueryParams.Limit p = QueryParams.Limit q →
  fst (spatial.buildQuery p) = fst (spatial.buildQuery q).
Proof.
  intros Hs Hsi Hu Ha Hl. apply buildQuery_text_shape; [| | |done|done].
  - destruct (String.eqb (QueryParams.SessionID p) "") eqn:E1;
      destruct (String.eqb (QueryParams.SessionID q) "") eqn:E2; try done;
      try apply String.eqb_eq in E1; try apply String.eqb_eq in E2.
    + apply Hs in E1. rewrite E1 in E2. discriminate.
    + apply Hs in E2. rewrite E2 in E1. discriminate.
  - destruct (0 <? QueryParams.Since p) eqn:E1; destruct (0 <? QueryParams.Since q) eqn:E2;
      try done; [apply Z.ltb_lt in E1; apply Z.ltb_ge in E2
                |apply Z.ltb_ge in E1; apply Z.ltb_lt in E2]; lia.
  - destruct (0 <? QueryParams.Until p) eqn:E1; destruct (0 <? QueryParams.Until q) eqn:E2;
      try done; [apply Z.ltb_lt in E1; apply Z.ltb_ge in E2
                |apply Z.ltb_ge in E1; apply Z.ltb_lt in E2]; lia.
Qed.

Lemma buildQuery_text_independent_witness :
  fst (spatial.buildQuery (sample.params "s1" 7))
  = fst (spatial.buildQuery (sample.params "x' OR true //" 7)).
Proof.
  apply buildQuery_text_independent; try reflexivity; split; intros H; discriminate H.
Defined.


